(** * NFTMarketplace: a shallow embedding of the marketplace contract

    The contract under study is [NFTMarketplace] (Solidity 0.8.9), the ledger
    behind the Mini-market front end.  Storage becomes a record, every public
    function becomes a computation in a small state-and-revert monad, and a
    transaction is a call of one public function with a sender and an
    attached value; a reverting transaction leaves the ledger as it was.

    Two OpenZeppelin libraries are imported by the contract and are modelled
    by the part of their behaviour the contract relies on:
    - [Counters]: [increment] adds one inside an [unchecked] block (so it
      wraps at 2^256), [decrement] requires a positive value;
    - [ERC721] / [ERC721URIStorage]: the internal functions [_mint],
      [_setTokenURI], [_transfer] and the view [ownerOf], with their
      [require]s.  The per-account token counters of ERC721 are not read by
      any function of the contract and are left out.

    The transactions considered are calls of the functions the contract
    itself declares; the entry points it inherits from ERC721 (approvals and
    direct token transfers) are library code and not part of the ledger's
    operations.

    Ether: the ledger's own balance is the field [balance]; every
    [payable(a).transfer(v)] debits it (reverting when it is too small) and is
    recorded in [sent].  Recipients are assumed to accept plain transfers.
    Events carry no state and are not modelled. *)

From Stdlib Require Import NArith String List Sorted Lia.
From stdpp Require Import base option list gmap strings.

Local Open Scope string_scope.
Local Open Scope N_scope.

(** ** Values *)

Definition address := N.

(** [address(0)] *)
Definition address0 : address := 0.

Definition uint256_modulus : N := 2 ^ 256.

(** [0.001 ether], in wei *)
Definition ether_0_001 : N := 1000000000000000.

(** ** Outcome of a call: a value, a [require] failure with its message, or
    a compiler-inserted panic with its code (0x11 arithmetic, 0x32 index). *)

Inductive result (A : Type) : Type :=
| Ok (a : A)
| Revert (reason : string)
| Panic (code : N).

Arguments Ok {A} a.
Arguments Revert {A} reason.
Arguments Panic {A} code.

Definition rbind {A B} (r : result A) (k : A -> result B) : result B :=
  match r with
  | Ok a => k a
  | Revert m => Revert m
  | Panic c => Panic c
  end.

Notation "'let*' x ':=' c 'in' k" := (rbind c (fun x => k))
  (at level 10, x pattern, c at level 100, k at level 200).

(** ** Storage *)

Module MarketItem.
Record t : Type := mk {
  tokenId : N;
  seller : address;
  owner : address;
  price : N;
  sold : bool
}.

(** The value every key of a Solidity mapping holds before it is written. *)
Definition zero : t := mk 0 address0 address0 0 false.
End MarketItem.

Record State : Type := mkState {
  _tokenIds : N;                          (* Counters.Counter *)
  _itemsSold : N;                         (* Counters.Counter *)
  listingPrice : N;
  owner : address;
  idToMarketItem : gmap N MarketItem.t;
  _owners : gmap N address;               (* ERC721 *)
  _tokenURIs : gmap N string;             (* ERC721URIStorage *)
  balance : N;                            (* address(this).balance *)
  sent : list (address * N)               (* transfers made, oldest first *)
}.

Definition set_tokenIds (v : N) (s : State) : State :=
  mkState v (_itemsSold s) (listingPrice s) (owner s) (idToMarketItem s)
          (_owners s) (_tokenURIs s) (balance s) (sent s).

Definition set_itemsSold (v : N) (s : State) : State :=
  mkState (_tokenIds s) v (listingPrice s) (owner s) (idToMarketItem s)
          (_owners s) (_tokenURIs s) (balance s) (sent s).

Definition set_listingPrice (v : N) (s : State) : State :=
  mkState (_tokenIds s) (_itemsSold s) v (owner s) (idToMarketItem s)
          (_owners s) (_tokenURIs s) (balance s) (sent s).

Definition set_idToMarketItem (m : gmap N MarketItem.t) (s : State) : State :=
  mkState (_tokenIds s) (_itemsSold s) (listingPrice s) (owner s) m
          (_owners s) (_tokenURIs s) (balance s) (sent s).

Definition set_owners (m : gmap N address) (s : State) : State :=
  mkState (_tokenIds s) (_itemsSold s) (listingPrice s) (owner s)
          (idToMarketItem s) m (_tokenURIs s) (balance s) (sent s).

Definition set_tokenURIs (m : gmap N string) (s : State) : State :=
  mkState (_tokenIds s) (_itemsSold s) (listingPrice s) (owner s)
          (idToMarketItem s) (_owners s) m (balance s) (sent s).

Definition set_balance (v : N) (s : State) : State :=
  mkState (_tokenIds s) (_itemsSold s) (listingPrice s) (owner s)
          (idToMarketItem s) (_owners s) (_tokenURIs s) v (sent s).

Definition set_sent (l : list (address * N)) (s : State) : State :=
  mkState (_tokenIds s) (_itemsSold s) (listingPrice s) (owner s)
          (idToMarketItem s) (_owners s) (_tokenURIs s) (balance s) l.

(** Reading a mapping: an absent key reads as the zero value. *)

Definition item (s : State) (id : N) : MarketItem.t :=
  default MarketItem.zero (idToMarketItem s !! id).

Definition tokenOwner (s : State) (id : N) : address :=
  default address0 (_owners s !! id).

(** Writing one field of [idToMarketItem[id]]. *)

Definition write_item (id : N) (f : MarketItem.t -> MarketItem.t) (s : State) : State :=
  set_idToMarketItem (<[id := f (item s id)]> (idToMarketItem s)) s.

Definition with_seller (a : address) (it : MarketItem.t) : MarketItem.t :=
  MarketItem.mk (MarketItem.tokenId it) a (MarketItem.owner it)
                (MarketItem.price it) (MarketItem.sold it).

Definition with_owner (a : address) (it : MarketItem.t) : MarketItem.t :=
  MarketItem.mk (MarketItem.tokenId it) (MarketItem.seller it) a
                (MarketItem.price it) (MarketItem.sold it).

Definition with_price (p : N) (it : MarketItem.t) : MarketItem.t :=
  MarketItem.mk (MarketItem.tokenId it) (MarketItem.seller it)
                (MarketItem.owner it) p (MarketItem.sold it).

Definition with_sold (b : bool) (it : MarketItem.t) : MarketItem.t :=
  MarketItem.mk (MarketItem.tokenId it) (MarketItem.seller it)
                (MarketItem.owner it) (MarketItem.price it) b.

(** ** The state-and-revert monad *)

Definition M (A : Type) : Type := State -> result (A * State).

Definition ret {A} (a : A) : M A := fun s => Ok (a, s).

Definition bind {A B} (c : M A) (k : A -> M B) : M B :=
  fun s =>
    match c s with
    | Ok (a, s') => k a s'
    | Revert r => Revert r
    | Panic c => Panic c
    end.

Notation "x <- c ;; k" := (bind c (fun x => k))
  (at level 100, c at next level, right associativity).
Notation "c ;;; k" := (bind c (fun _ => k))
  (at level 100, right associativity).

Definition gets {A} (f : State -> A) : M A := fun s => Ok (f s, s).

Definition modify (f : State -> State) : M unit := fun s => Ok (tt, f s).

Definition require (b : bool) (reason : string) : M unit :=
  fun s => if b then Ok (tt, s) else Revert reason.

(** [msg.sender] and [msg.value] *)
Record Msg : Type := mkMsg { sender : address; value : N }.

(** ** Library code the contract calls

    [Counters] and the internal functions of [ERC721] as in OpenZeppelin
    Contracts 4.x, the line that still ships [Counters]; the revert reasons
    are those of releases 4.7 to 4.9. *)

Module Counters.
Definition increment (v : N) : N := (v + 1) mod uint256_modulus.

Definition decrement (v : N) : result N :=
  if 0 <? v then Ok (v - 1) else Revert "Counter: decrement overflow".
End Counters.

Definition _exists (id : N) : M bool :=
  gets (fun s => negb (tokenOwner s id =? address0)).

Definition ownerOf (id : N) : M address :=
  o <- gets (fun s => tokenOwner s id) ;;
  require (negb (o =? address0)) "ERC721: invalid token ID" ;;;
  ret o.

Definition _mint (to : address) (id : N) : M unit :=
  require (negb (to =? address0)) "ERC721: mint to the zero address" ;;;
  e <- _exists id ;;
  require (negb e) "ERC721: token already minted" ;;;
  modify (fun s => set_owners (<[id := to]> (_owners s)) s).

Definition _setTokenURI (id : N) (uri : string) : M unit :=
  e <- _exists id ;;
  require e "ERC721URIStorage: URI set of nonexistent token" ;;;
  modify (fun s => set_tokenURIs (<[id := uri]> (_tokenURIs s)) s).

Definition _transfer (from to : address) (id : N) : M unit :=
  o <- ownerOf id ;;
  require (o =? from) "ERC721: transfer from incorrect owner" ;;;
  require (negb (to =? address0)) "ERC721: transfer to the zero address" ;;;
  modify (fun s => set_owners (<[id := to]> (_owners s)) s).

(** [payable(to).transfer(amount)] *)
Definition transfer (to : address) (amount : N) : M unit :=
  b <- gets balance ;;
  require (amount <=? b) EmptyString ;;;
  modify (fun s => set_sent (sent s ++ [(to, amount)]) (set_balance (b - amount) s)).

Definition lift {A} (r : result A) : M A :=
  fun s =>
    match r with
    | Ok a => Ok (a, s)
    | Revert m => Revert m
    | Panic c => Panic c
    end.

(** ** The contract *)

Section Contract.

(** [address(this)] *)
Variable this : address.

Definition constructor (msg_sender : address) : State :=
  mkState 0 0 ether_0_001 msg_sender ∅ ∅ ∅ 0 [].

Definition getListingPrice : M N := gets listingPrice.

Definition updateListingPrice (msg : Msg) (_listingPrice : N) : M unit :=
  o <- gets owner ;;
  require (o =? sender msg) "Only marketplace owner can update listing price" ;;;
  modify (set_listingPrice _listingPrice).

Definition createMarketItem (msg : Msg) (tokenId price : N) : M unit :=
  require (0 <? price) "Price must be greater than zero" ;;;
  lp <- gets listingPrice ;;
  require (value msg =? lp) "Price must be equal to listing price" ;;;
  modify (fun s =>
    set_idToMarketItem
      (<[tokenId := MarketItem.mk tokenId (sender msg) this price false]>
         (idToMarketItem s)) s) ;;;
  _transfer (sender msg) this tokenId.

Definition createToken (msg : Msg) (tokenURI : string) (price : N) : M N :=
  modify (fun s => set_tokenIds (Counters.increment (_tokenIds s)) s) ;;;
  newTokenId <- gets _tokenIds ;;
  _mint (sender msg) newTokenId ;;;
  _setTokenURI newTokenId tokenURI ;;;
  createMarketItem msg newTokenId price ;;;
  ret newTokenId.

Definition createMarketSale (msg : Msg) (tokenId : N) : M unit :=
  price <- gets (fun s => MarketItem.price (item s tokenId)) ;;
  seller <- gets (fun s => MarketItem.seller (item s tokenId)) ;;
  require (value msg =? price)
    "Please submit the asking price in order to complete the purchase" ;;;
  modify (write_item tokenId (with_owner (sender msg))) ;;;
  modify (write_item tokenId (with_sold true)) ;;;
  modify (write_item tokenId (with_seller address0)) ;;;
  modify (fun s => set_itemsSold (Counters.increment (_itemsSold s)) s) ;;;
  _transfer this (sender msg) tokenId ;;;
  o <- gets owner ;;
  lp <- gets listingPrice ;;
  transfer o lp ;;;
  transfer seller (value msg).

Definition resellToken (msg : Msg) (tokenId price : N) : M unit :=
  io <- gets (fun s => MarketItem.owner (item s tokenId)) ;;
  require (io =? sender msg) "Only item owner can perform this operation" ;;;
  lp <- gets listingPrice ;;
  require (value msg =? lp) "Price must be equal to listing price" ;;;
  modify (write_item tokenId (with_sold false)) ;;;
  modify (write_item tokenId (with_price price)) ;;;
  modify (write_item tokenId (with_seller (sender msg))) ;;;
  modify (write_item tokenId (with_owner this)) ;;;
  n <- gets _itemsSold ;;
  n' <- lift (Counters.decrement n) ;;
  modify (set_itemsSold n') ;;;
  _transfer (sender msg) this tokenId.

Definition cancelItemListing (msg : Msg) (tokenId : N) : M unit :=
  sl <- gets (fun s => MarketItem.seller (item s tokenId)) ;;
  require (sl =? sender msg) "Only item seller can perform this operation" ;;;
  sd <- gets (fun s => MarketItem.sold (item s tokenId)) ;;
  require (negb sd) "Only cancel items which are not sold yet" ;;;
  modify (write_item tokenId (with_owner (sender msg))) ;;;
  modify (write_item tokenId (with_seller address0)) ;;;
  modify (write_item tokenId (with_sold true)) ;;;
  modify (fun s => set_itemsSold (Counters.increment (_itemsSold s)) s) ;;;
  o <- gets owner ;;
  lp <- gets listingPrice ;;
  transfer o lp ;;;
  _transfer this (sender msg) tokenId.

(** *** The three views

    A memory array is a list; [new MarketItem[](n)] is [n] zero records and a
    write past the end panics with code 0x32.  The loop
    [for (uint i = 0; i < n; i++)] visits [indices n].  The additions
    [i + 1], [itemCount += 1] and [currentIndex += 1] are checked ones whose
    results are bounded by [_tokenIds], a uint256, so the check cannot fire
    and they are written as plain additions; the subtraction that sizes the
    array of [fetchMarketItems] can fail and keeps its check. *)

Definition indices (n : N) : list N := map N.of_nat (seq 0 (N.to_nat n)).

Fixpoint for_each {A} (l : list N) (body : N -> A -> result A) (a : A) : result A :=
  match l with
  | [] => Ok a
  | i :: l' => let* a' := body i a in for_each l' body a'
  end.

Definition new_array (n : N) : list MarketItem.t :=
  replicate (N.to_nat n) MarketItem.zero.

(** [items[idx] = x] *)
Definition store (items : list MarketItem.t) (idx : N) (x : MarketItem.t)
  : result (list MarketItem.t) :=
  if idx <? N.of_nat (length items)
  then Ok (<[N.to_nat idx := x]> items)
  else Panic 50.

(** [a - b] in checked arithmetic *)
Definition checked_sub (a b : N) : result N :=
  if b <=? a then Ok (a - b) else Panic 17.

Definition fetchMarketItems (s : State) : result (list MarketItem.t) :=
  let itemCount := _tokenIds s in
  let* unsoldItemCount := checked_sub (_tokenIds s) (_itemsSold s) in
  let* filled :=
    for_each (indices itemCount)
      (fun i '(items, currentIndex) =>
         if MarketItem.owner (item s (i + 1)) =? this then
           let* items' := store items currentIndex (item s (i + 1)) in
           Ok (items', currentIndex + 1)
         else Ok (items, currentIndex))
      (new_array unsoldItemCount, 0) in
  Ok (fst filled).

Definition fetchMyNFTs (msg_sender : address) (s : State) : result (list MarketItem.t) :=
  let totalItemCount := _tokenIds s in
  let* itemCount :=
    for_each (indices totalItemCount)
      (fun i itemCount =>
         if MarketItem.owner (item s (i + 1)) =? msg_sender
         then Ok (itemCount + 1) else Ok itemCount)
      0 in
  let* filled :=
    for_each (indices totalItemCount)
      (fun i '(items, currentIndex) =>
         if MarketItem.owner (item s (i + 1)) =? msg_sender then
           let* items' := store items currentIndex (item s (i + 1)) in
           Ok (items', currentIndex + 1)
         else Ok (items, currentIndex))
      (new_array itemCount, 0) in
  Ok (fst filled).

Definition fetchItemsListed (msg_sender : address) (s : State) : result (list MarketItem.t) :=
  let totalItemCount := _tokenIds s in
  let* itemCount :=
    for_each (indices totalItemCount)
      (fun i itemCount =>
         if MarketItem.seller (item s (i + 1)) =? msg_sender
         then Ok (itemCount + 1) else Ok itemCount)
      0 in
  let* filled :=
    for_each (indices totalItemCount)
      (fun i '(items, currentIndex) =>
         if MarketItem.seller (item s (i + 1)) =? msg_sender then
           let* items' := store items currentIndex (item s (i + 1)) in
           Ok (items', currentIndex + 1)
         else Ok (items, currentIndex))
      (new_array itemCount, 0) in
  Ok (fst filled).

(** *** Transactions

    A transaction credits [msg.value] to the ledger and runs one public
    function; [cancelItemListing] is not payable and rejects a value.  When
    the call reverts nothing is kept. *)

Inductive Call : Type :=
| CreateToken (tokenURI : string) (price : N)
| CreateMarketSale (tokenId : N)
| ResellToken (tokenId price : N)
| CancelItemListing (tokenId : N)
| UpdateListingPrice (_listingPrice : N).

Record Tx : Type := mkTx { tx_msg : Msg; tx_call : Call }.

Definition dispatch (tx : Tx) : M unit :=
  let msg := tx_msg tx in
  match tx_call tx with
  | CreateToken uri p => createToken msg uri p ;;; ret tt
  | CreateMarketSale id => createMarketSale msg id
  | ResellToken id p => resellToken msg id p
  | CancelItemListing id =>
      require (value msg =? 0) EmptyString ;;; cancelItemListing msg id
  | UpdateListingPrice p => updateListingPrice msg p
  end.

Definition receive_value (v : N) (s : State) : State :=
  set_balance (balance s + v) s.

Definition transact (tx : Tx) (s : State) : result State :=
  match dispatch tx (receive_value (value (tx_msg tx)) s) with
  | Ok (_, s') => Ok s'
  | Revert m => Revert m
  | Panic c => Panic c
  end.

Definition step (s : State) (tx : Tx) : State :=
  match transact tx s with
  | Ok s' => s'
  | _ => s
  end.

Definition run (txs : list Tx) (s : State) : State := fold_left step txs s.

End Contract.

(** * What a successful call did

    Inversion of the monad's combinators, then one lemma per function: from
    [f ... s = Ok (_, s')] to the guards that passed and to [s']. *)

Lemma bind_Ok {A B} (c : M A) (k : A -> M B) s b s' :
  bind c k s = Ok (b, s') -> exists a s1, c s = Ok (a, s1) /\ k a s1 = Ok (b, s').
Proof.
  unfold bind. destruct (c s) as [[a s1]| |]; try discriminate. eauto.
Qed.

Lemma require_Ok b reason s u s' :
  require b reason s = Ok (u, s') -> b = true /\ s' = s.
Proof. unfold require. destruct b; [|discriminate]. by intros [= _ ->]. Qed.

Lemma gets_Ok {A} (f : State -> A) s a s' :
  gets f s = Ok (a, s') -> a = f s /\ s' = s.
Proof. unfold gets. by intros [= -> ->]. Qed.

Lemma modify_Ok f s u s' : modify f s = Ok (u, s') -> s' = f s.
Proof. unfold modify. by intros [= _ ->]. Qed.

Lemma ret_Ok {A} (a : A) s b s' : ret a s = Ok (b, s') -> b = a /\ s' = s.
Proof. unfold ret. by intros [= -> ->]. Qed.

Lemma lift_Ok {A} (r : result A) s a s' : lift r s = Ok (a, s') -> r = Ok a /\ s' = s.
Proof. unfold lift. destruct r; try discriminate. by intros [= -> ->]. Qed.

Ltac inv_M :=
  repeat match goal with
  | H : bind _ _ _ = Ok _ |- _ =>
      apply bind_Ok in H; destruct H as (? & ? & ? & H)
  | H : require _ _ _ = Ok _ |- _ =>
      apply require_Ok in H; destruct H as [H ?]; subst
  | H : gets _ _ = Ok _ |- _ =>
      apply gets_Ok in H; destruct H as [? ?]; subst
  | H : modify _ _ = Ok _ |- _ => apply modify_Ok in H; subst
  | H : ret _ _ = Ok _ |- _ => apply ret_Ok in H; destruct H as [? ?]; subst
  | H : lift _ _ = Ok _ |- _ => apply lift_Ok in H; destruct H as [H ?]; subst
  end.

Ltac bool_to_prop :=
  repeat match goal with
  | H : true = _ |- _ => symmetry in H
  | H : false = _ |- _ => symmetry in H
  | H : negb _ = true |- _ => apply negb_true_iff in H
  | H : negb _ = false |- _ => apply negb_false_iff in H
  | H : (_ =? _) = true |- _ => apply N.eqb_eq in H
  | H : (_ =? _) = false |- _ => apply N.eqb_neq in H
  | H : (_ <? _) = true |- _ => apply N.ltb_lt in H
  | H : (_ <? _) = false |- _ => apply N.ltb_ge in H
  | H : (_ <=? _) = true |- _ => apply N.leb_le in H
  | H : (_ <=? _) = false |- _ => apply N.leb_gt in H
  end.

Ltac unfold_M :=
  unfold bind, ret, gets, modify, require, lift.

Lemma ownerOf_Ok id s o s' :
  ownerOf id s = Ok (o, s') -> o = tokenOwner s id /\ o ≠ address0 /\ s' = s.
Proof. unfold ownerOf. intros H. inv_M. by bool_to_prop. Qed.

Lemma _transfer_Ok from to id s u s' :
  _transfer from to id s = Ok (u, s') ->
  tokenOwner s id = from /\ from ≠ address0 /\ to ≠ address0 /\
  s' = set_owners (<[id := to]> (_owners s)) s.
Proof.
  unfold _transfer. intros H. inv_M.
  match goal with H : ownerOf _ _ = Ok _ |- _ =>
    apply ownerOf_Ok in H; destruct H as (-> & ? & ->) end.
  bool_to_prop. naive_solver.
Qed.

Lemma transfer_Ok to amount s u s' :
  transfer to amount s = Ok (u, s') ->
  amount <= balance s /\
  s' = set_sent (sent s ++ [(to, amount)]) (set_balance (balance s - amount) s).
Proof. unfold transfer. intros H. inv_M. by bool_to_prop. Qed.

Lemma _mint_Ok to id s u s' :
  _mint to id s = Ok (u, s') ->
  to ≠ address0 /\ tokenOwner s id = address0 /\
  s' = set_owners (<[id := to]> (_owners s)) s.
Proof.
  unfold _mint, _exists. intros H. inv_M. by bool_to_prop.
Qed.

Lemma _setTokenURI_Ok id uri s u s' :
  _setTokenURI id uri s = Ok (u, s') ->
  tokenOwner s id ≠ address0 /\
  s' = set_tokenURIs (<[id := uri]> (_tokenURIs s)) s.
Proof. unfold _setTokenURI, _exists. intros H. inv_M. by bool_to_prop. Qed.

Ltac simpl_state :=
  unfold item, tokenOwner, write_item, receive_value in *; cbn in *;
  repeat first
    [ rewrite lookup_insert_eq
    | rewrite lookup_insert_ne by (done || congruence) ];
  cbn.

(** [s'] differs from [s] at most at identifier [id], in the record table and
    in the token ledger. *)
Definition same_elsewhere (id : N) (s s' : State) : Prop :=
  forall j, j ≠ id -> item s' j = item s j /\ tokenOwner s' j = tokenOwner s j.

Section Calls.

Variable this : address.

Lemma updateListingPrice_Ok msg p s u s' :
  updateListingPrice msg p s = Ok (u, s') ->
  sender msg = owner s /\ s' = set_listingPrice p s.
Proof. unfold updateListingPrice. intros H. inv_M. by bool_to_prop. Qed.

Lemma createMarketSale_Ok msg id s u s' :
  createMarketSale this msg id s = Ok (u, s') ->
  (value msg = MarketItem.price (item s id) /\
   tokenOwner s id = this /\ this ≠ address0 /\ sender msg ≠ address0 /\
   listingPrice s + value msg <= balance s) /\
  (_tokenIds s' = _tokenIds s /\
   _itemsSold s' = Counters.increment (_itemsSold s) /\
   listingPrice s' = listingPrice s /\ owner s' = owner s /\
   balance s' = balance s - listingPrice s - value msg /\
   sent s' = (sent s ++ [(owner s, listingPrice s);
                         (MarketItem.seller (item s id), value msg)])%list) /\
  item s' id = MarketItem.mk (MarketItem.tokenId (item s id)) address0 (sender msg)
                             (MarketItem.price (item s id)) true /\
  tokenOwner s' id = sender msg /\
  same_elsewhere id s s'.
Proof.
  unfold createMarketSale. intros H. inv_M.
  repeat match goal with
  | H : _transfer _ _ _ _ = Ok _ |- _ =>
      apply _transfer_Ok in H; destruct H as (? & ? & ? & ?)
  | H : transfer _ _ _ = Ok _ |- _ =>
      apply transfer_Ok in H; destruct H as (? & ?)
  end.
  bool_to_prop. subst. unfold same_elsewhere. simpl_state.
  rewrite <- app_assoc. repeat split; try done; try lia.
  all: intros; by simpl_state.
Qed.

Lemma createToken_Ok msg uri p s id s' :
  createToken this msg uri p s = Ok (id, s') ->
  (sender msg ≠ address0 /\ this ≠ address0 /\ 0 < p /\
   value msg = listingPrice s /\
   id = Counters.increment (_tokenIds s) /\ tokenOwner s id = address0) /\
  (_tokenIds s' = id /\ _itemsSold s' = _itemsSold s /\
   listingPrice s' = listingPrice s /\ owner s' = owner s /\
   balance s' = balance s /\ sent s' = sent s) /\
  item s' id = MarketItem.mk id (sender msg) this p false /\
  tokenOwner s' id = this /\
  same_elsewhere id s s'.
Proof.
  unfold createToken, createMarketItem. intros H. inv_M.
  repeat match goal with
  | H : _transfer _ _ _ _ = Ok _ |- _ =>
      apply _transfer_Ok in H; destruct H as (? & ? & ? & ?)
  | H : _mint _ _ _ = Ok _ |- _ => apply _mint_Ok in H; destruct H as (? & ? & ?)
  | H : _setTokenURI _ _ _ = Ok _ |- _ =>
      apply _setTokenURI_Ok in H; destruct H as (? & ?)
  end.
  bool_to_prop. subst. unfold same_elsewhere. simpl_state.
  repeat split; try done.
  all: intros; by simpl_state.
Qed.

Lemma resellToken_Ok msg id p s u s' :
  resellToken this msg id p s = Ok (u, s') ->
  (MarketItem.owner (item s id) = sender msg /\
   value msg = listingPrice s /\ 0 < _itemsSold s /\
   tokenOwner s id = sender msg /\ sender msg ≠ address0 /\ this ≠ address0) /\
  (_tokenIds s' = _tokenIds s /\ _itemsSold s' = _itemsSold s - 1 /\
   listingPrice s' = listingPrice s /\ owner s' = owner s /\
   balance s' = balance s /\ sent s' = sent s) /\
  item s' id = MarketItem.mk (MarketItem.tokenId (item s id)) (sender msg) this p false /\
  tokenOwner s' id = this /\
  same_elsewhere id s s'.
Proof.
  unfold resellToken, Counters.decrement. intros H. inv_M.
  repeat match goal with
  | H : _transfer _ _ _ _ = Ok _ |- _ =>
      apply _transfer_Ok in H; destruct H as (? & ? & ? & ?)
  | H : (if ?b then _ else _) = Ok _ |- _ =>
      let E := fresh "E" in destruct b eqn:E; [|discriminate H]
  end.
  bool_to_prop. simplify_eq. unfold same_elsewhere. simpl_state.
  repeat split; try done.
  all: intros; by simpl_state.
Qed.

Lemma cancelItemListing_Ok msg id s u s' :
  cancelItemListing this msg id s = Ok (u, s') ->
  (MarketItem.seller (item s id) = sender msg /\
   MarketItem.sold (item s id) = false /\
   listingPrice s <= balance s /\
   tokenOwner s id = this /\ this ≠ address0 /\ sender msg ≠ address0) /\
  (_tokenIds s' = _tokenIds s /\
   _itemsSold s' = Counters.increment (_itemsSold s) /\
   listingPrice s' = listingPrice s /\ owner s' = owner s /\
   balance s' = balance s - listingPrice s /\
   sent s' = (sent s ++ [(owner s, listingPrice s)])%list) /\
  item s' id = MarketItem.mk (MarketItem.tokenId (item s id)) address0 (sender msg)
                             (MarketItem.price (item s id)) true /\
  tokenOwner s' id = sender msg /\
  same_elsewhere id s s'.
Proof.
  unfold cancelItemListing. intros H. inv_M.
  repeat match goal with
  | H : _transfer _ _ _ _ = Ok _ |- _ =>
      apply _transfer_Ok in H; destruct H as (? & ? & ? & ?)
  | H : transfer _ _ _ = Ok _ |- _ =>
      apply transfer_Ok in H; destruct H as (? & ?)
  end.
  bool_to_prop. subst. unfold same_elsewhere. simpl_state.
  repeat split; try done.
  all: intros; by simpl_state.
Qed.

End Calls.

(** * Identifiers in use and counting *)

(** The identifiers a scan visits: [i + 1] for [i] in [indices n]. *)
Definition tokenIds_upto (n : N) : list N := map (fun i => i + 1) (indices n).

Lemma in_indices n i : In i (indices n) <-> i < n.
Proof.
  unfold indices. rewrite in_map_iff. split.
  - intros (k & <- & Hk). apply in_seq in Hk. lia.
  - intros Hi. exists (N.to_nat i). rewrite in_seq. split; lia.
Qed.

Lemma in_tokenIds_upto n id : In id (tokenIds_upto n) <-> 1 <= id <= n.
Proof.
  unfold tokenIds_upto. rewrite in_map_iff. split.
  - intros (i & <- & Hi). apply in_indices in Hi. lia.
  - intros Hid. exists (id - 1). rewrite in_indices. split; lia.
Qed.

Lemma indices_succ n : indices (n + 1) = (indices n ++ [n])%list.
Proof.
  unfold indices. replace (N.to_nat (n + 1)) with (S (N.to_nat n)) by lia.
  rewrite seq_S, map_app. cbn. by rewrite N2Nat.id.
Qed.

Lemma tokenIds_upto_succ n : tokenIds_upto (n + 1) = (tokenIds_upto n ++ [n + 1])%list.
Proof. unfold tokenIds_upto. by rewrite indices_succ, map_app. Qed.

Lemma NoDup_tokenIds_upto n : List.NoDup (tokenIds_upto n).
Proof.
  unfold tokenIds_upto, indices. rewrite map_map.
  apply Finite.Injective_map_NoDup; [|apply seq_NoDup].
  intros a b Hab. lia.
Qed.

(** The counter's reading of "sold": how many of the records in use carry the
    flag. *)
Definition is_sold (s : State) (id : N) : bool := MarketItem.sold (item s id).

Definition sold_count (s : State) : N :=
  N.of_nat (length (List.filter (is_sold s) (tokenIds_upto (_tokenIds s)))).

Definition unsold_count (s : State) : N :=
  N.of_nat (length (List.filter (fun id => negb (is_sold s id))
                                (tokenIds_upto (_tokenIds s)))).

Lemma filter_length_flip (f g : N -> bool) (l : list N) (a : N) :
  List.NoDup l -> In a l -> (forall x, x ≠ a -> In x l -> f x = g x) ->
  f a = false -> g a = true ->
  length (List.filter g l) = S (length (List.filter f l)).
Proof.
  induction l as [|x l IH]; intros Hnd Hin Hext Hf Hg; [by destruct Hin|].
  apply List.NoDup_cons_iff in Hnd as [Hx Hnd]. cbn.
  destruct Hin as [->|Hin].
  - rewrite Hf, Hg. cbn. f_equal. f_equal.
    apply List.filter_ext_in. intros y Hy. symmetry. apply Hext.
    + intros ->. contradiction.
    + by right.
  - assert (x ≠ a) as Hne by (intros ->; contradiction).
    rewrite <- (Hext x Hne) by (by left).
    assert (length (List.filter g l) = S (length (List.filter f l))) as IH'.
    { apply IH; try done. intros y Hy Hin'. apply Hext; [done|by right]. }
    destruct (f x); cbn; lia.
Qed.

Lemma filter_length_partition (f : N -> bool) (l : list N) :
  (length (List.filter f l) + length (List.filter (fun x => negb (f x)) l))%nat
  = length l.
Proof.
  induction l as [|x l IH]; [done|]. cbn. destruct (f x); cbn; lia.
Qed.

Lemma length_tokenIds_upto n : length (tokenIds_upto n) = N.to_nat n.
Proof. unfold tokenIds_upto, indices. by rewrite !length_map, length_seq. Qed.

Lemma sold_unsold_count s : sold_count s + unsold_count s = _tokenIds s.
Proof.
  unfold sold_count, unsold_count.
  rewrite <- Nat2N.inj_add, filter_length_partition, length_tokenIds_upto. lia.
Qed.

(** * The ledger invariant *)

(** A record exists for [id] once [createToken] has allocated it. *)
Definition record_exists (s : State) (id : N) : Prop := 1 <= id <= _tokenIds s.

(** What is true of one record in use. *)
Definition record_ok (this : address) (s : State) (id : N) : Prop :=
  let it := item s id in
  MarketItem.tokenId it = id /\
  tokenOwner s id = MarketItem.owner it /\
  MarketItem.owner it ≠ address0 /\
  (MarketItem.sold it = false ->
     MarketItem.owner it = this /\ MarketItem.seller it ≠ address0) /\
  (MarketItem.sold it = true ->
     MarketItem.owner it ≠ this /\ MarketItem.seller it = address0).

(** [n] bounds the number of transactions executed so far. *)
Record Inv (this : address) (n : N) (s : State) : Prop := mkInv {
  inv_bound : _tokenIds s <= n;
  inv_rec : forall id, record_exists s id -> record_ok this s id;
  inv_fresh : forall id, ~ record_exists s id ->
                tokenOwner s id = address0 /\ item s id = MarketItem.zero;
  inv_sold : _itemsSold s = sold_count s
}.

(** The sender of a transaction is never the ledger itself: the contract
    makes no calls to its own public functions. *)
Definition wf_tx (this : address) (tx : Tx) : Prop := sender (tx_msg tx) ≠ this.

Section Invariant.

Variable this : address.

Lemma Inv_constructor deployer : Inv this 0 (constructor deployer).
Proof.
  split; cbn; try done.
  - intros id [H1 H2]. cbn in *. lia.
Qed.

Lemma Inv_mono n m s : n <= m -> Inv this n s -> Inv this m s.
Proof. intros Hnm [H1 H2 H3 H4]. split; try done. lia. Qed.

Lemma Inv_frame n s s' :
  _tokenIds s' = _tokenIds s -> _itemsSold s' = _itemsSold s ->
  (forall j, item s' j = item s j) -> (forall j, tokenOwner s' j = tokenOwner s j) ->
  Inv this n s -> Inv this n s'.
Proof.
  intros Ht Hs Hi Ho [H1 H2 H3 H4].
  split; unfold record_exists, record_ok, sold_count, is_sold in *.
  - by rewrite Ht.
  - intros id Hid. rewrite Ht in Hid. rewrite Hi, Ho. by apply H2.
  - intros id Hid. rewrite Ht in Hid. rewrite Hi, Ho. by apply H3.
  - rewrite Hs, Ht, H4. f_equal. f_equal.
    apply List.filter_ext. intros a. by rewrite Hi.
Qed.

Lemma sold_count_le s : sold_count s <= _tokenIds s.
Proof. pose proof (sold_unsold_count s). lia. Qed.

Lemma increment_small v : v + 1 < uint256_modulus -> Counters.increment v = v + 1.
Proof. intros H. unfold Counters.increment. by apply N.mod_small. Qed.

(** An identifier whose token has an owner is in use. *)
Lemma owned_exists n s id :
  Inv this n s -> tokenOwner s id ≠ address0 -> record_exists s id.
Proof.
  intros HI Ho.
  destruct (decide (record_exists s id)) as [|Hn]; [done|].
  by destruct (inv_fresh _ _ _ HI id Hn).
Qed.

(** Flipping the flag of one record in use moves [sold_count] by one. *)
Lemma sold_count_flip s s' id :
  _tokenIds s' = _tokenIds s -> record_exists s id ->
  same_elsewhere id s s' ->
  is_sold s id = false -> is_sold s' id = true ->
  sold_count s' = sold_count s + 1.
Proof.
  intros Ht Hid Hse Hf Hg. unfold sold_count. rewrite Ht.
  rewrite (filter_length_flip (is_sold s) (is_sold s') _ id); try done.
  - lia.
  - apply NoDup_tokenIds_upto.
  - by apply in_tokenIds_upto.
  - intros x Hx _. unfold is_sold. by destruct (Hse x Hx) as [-> _].
Qed.

Lemma same_elsewhere_sym id s s' : same_elsewhere id s s' -> same_elsewhere id s' s.
Proof. intros H j Hj. by destruct (H j Hj) as [-> ->]. Qed.

(** Rewriting one record in use, leaving the allocation counter alone. *)
Lemma Inv_update n s s' id :
  Inv this n s -> _tokenIds s' = _tokenIds s -> same_elsewhere id s s' ->
  record_exists s id -> record_ok this s' id ->
  _itemsSold s' = sold_count s' ->
  Inv this n s'.
Proof.
  intros [H1 H2 H3 H4] Ht Hse Hid Hok Hcnt.
  split; unfold record_exists in *; try done.
  - by rewrite Ht.
  - intros j Hj. rewrite Ht in Hj.
    destruct (decide (j = id)) as [->|Hne]; [done|].
    destruct (Hse j Hne) as [Hi Ho]. unfold record_ok. rewrite Hi, Ho.
    by apply H2.
  - intros j Hj. rewrite Ht in Hj.
    assert (j ≠ id) as Hne by (intros ->; contradiction).
    destruct (Hse j Hne) as [-> ->]. by apply H3.
Qed.

Lemma Inv_createMarketSale n s msg id u s' :
  Inv this n s -> n < uint256_modulus -> sender msg ≠ this ->
  createMarketSale this msg id s = Ok (u, s') -> Inv this n s'.
Proof.
  intros HI Hn Hwf Hcall.
  apply createMarketSale_Ok in Hcall
    as ((_ & Hto & Hthis & Hsnd & _) & (Ht & Hs & _) & Hit & Hto' & Hse).
  assert (record_exists s id) as Hid
    by (eapply owned_exists; [done|congruence]).
  destruct (inv_rec _ _ _ HI id Hid) as (Hk & Ho & _ & Hunsold & Hsold).
  assert (MarketItem.sold (item s id) = false) as Hflag.
  { destruct (MarketItem.sold (item s id)) eqn:E; [|done].
    destruct (Hsold eq_refl) as [Hne _]. congruence. }
  assert (sold_count s' = sold_count s + 1) as Hcnt.
  { apply (sold_count_flip s s' id); try done. unfold is_sold. by rewrite Hit. }
  apply (Inv_update n s s' id); try done.
  - unfold record_ok. rewrite Hit, Hto'. cbn. repeat split; try done.
  - rewrite Hs, Hcnt, (inv_sold _ _ _ HI). apply increment_small.
    pose proof (sold_count_le s'). pose proof (inv_bound _ _ _ HI). lia.
Qed.

Lemma Inv_cancelItemListing n s msg id u s' :
  Inv this n s -> n < uint256_modulus -> sender msg ≠ this ->
  cancelItemListing this msg id s = Ok (u, s') -> Inv this n s'.
Proof.
  intros HI Hn Hwf Hcall.
  apply cancelItemListing_Ok in Hcall
    as ((_ & Hflag & _ & Hto & Hthis & Hsnd) & (Ht & Hs & _) & Hit & Hto' & Hse).
  assert (record_exists s id) as Hid
    by (eapply owned_exists; [done|congruence]).
  destruct (inv_rec _ _ _ HI id Hid) as (Hk & _).
  assert (sold_count s' = sold_count s + 1) as Hcnt.
  { apply (sold_count_flip s s' id); try done. unfold is_sold. by rewrite Hit. }
  apply (Inv_update n s s' id); try done.
  - unfold record_ok. rewrite Hit, Hto'. cbn. repeat split; try done.
  - rewrite Hs, Hcnt, (inv_sold _ _ _ HI). apply increment_small.
    pose proof (sold_count_le s'). pose proof (inv_bound _ _ _ HI). lia.
Qed.

Lemma Inv_resellToken n s msg id p u s' :
  Inv this n s -> sender msg ≠ this ->
  resellToken this msg id p s = Ok (u, s') -> Inv this n s'.
Proof.
  intros HI Hwf Hcall.
  apply resellToken_Ok in Hcall
    as ((Hio & _ & Hpos & Hto & Hsnd & Hthis) & (Ht & Hs & _) & Hit & Hto' & Hse).
  assert (record_exists s id) as Hid
    by (eapply owned_exists; [done|congruence]).
  destruct (inv_rec _ _ _ HI id Hid) as (Hk & Ho & _ & Hunsold & Hsold).
  assert (MarketItem.sold (item s id) = true) as Hflag.
  { destruct (MarketItem.sold (item s id)) eqn:E; [done|].
    destruct (Hunsold eq_refl) as [He _]. congruence. }
  assert (sold_count s = sold_count s' + 1) as Hcnt.
  { apply (sold_count_flip s' s id); try done.
    - unfold record_exists. by rewrite Ht.
    - by apply same_elsewhere_sym.
    - unfold is_sold. by rewrite Hit. }
  apply (Inv_update n s s' id); try done.
  - unfold record_ok. rewrite Hit, Hto'. cbn. repeat split; try done.
  - rewrite Hs, (inv_sold _ _ _ HI), Hcnt. lia.
Qed.

Lemma Inv_createToken n s msg uri p id s' :
  Inv this n s -> n + 1 < uint256_modulus ->
  createToken this msg uri p s = Ok (id, s') -> Inv this (n + 1) s'.
Proof.
  intros HI Hn Hcall.
  apply createToken_Ok in Hcall
    as ((Hsnd & Hthis & _ & _ & Hid & _) & (Ht & Hs & _) & Hit & Hto' & Hse).
  pose proof (inv_bound _ _ _ HI) as Hb.
  rewrite increment_small in Hid by lia.
  split; unfold record_exists in *.
  - lia.
  - intros j Hj. destruct (decide (j = id)) as [->|Hne].
    + unfold record_ok. rewrite Hit, Hto'. cbn. repeat split; try done.
    + destruct (Hse j Hne) as [Hi Ho]. unfold record_ok. rewrite Hi, Ho.
      apply (inv_rec _ _ _ HI). unfold record_exists. lia.
  - intros j Hj. assert (j ≠ id) as Hne by lia.
    destruct (Hse j Hne) as [-> ->].
    apply (inv_fresh _ _ _ HI). unfold record_exists. lia.
  - rewrite Hs, (inv_sold _ _ _ HI). unfold sold_count.
    rewrite Ht, Hid, tokenIds_upto_succ, List.filter_app, length_app. cbn.
    replace (is_sold s' (_tokenIds s + 1)) with false
      by (unfold is_sold; by rewrite <- Hid, Hit).
    cbn. rewrite Nat.add_0_r. f_equal. f_equal.
    apply List.filter_ext_in. intros j Hj. apply in_tokenIds_upto in Hj.
    unfold is_sold. assert (j ≠ id) as Hne by lia.
    by destruct (Hse j Hne) as [-> _].
Qed.

Lemma Inv_receive_value n v s : Inv this n s -> Inv this n (receive_value v s).
Proof. by apply Inv_frame. Qed.

Lemma Inv_step n s tx :
  Inv this n s -> n + 1 < uint256_modulus -> wf_tx this tx ->
  Inv this (n + 1) (step this s tx).
Proof.
  intros HI Hn Hwf. unfold step, transact.
  assert (Inv this (n + 1) s) as HI' by (apply (Inv_mono n); [lia|done]).
  destruct (dispatch this tx _) as [[u s']| |] eqn:Hd; try done.
  pose proof (Inv_receive_value n (value (tx_msg tx)) s HI) as HI0.
  unfold dispatch, wf_tx in *. destruct (tx_call tx); inv_M.
  - by eapply Inv_createToken.
  - apply (Inv_mono n); [lia|]. eapply Inv_createMarketSale; try done. lia.
  - apply (Inv_mono n); [lia|]. by eapply Inv_resellToken.
  - apply (Inv_mono n); [lia|]. eapply Inv_cancelItemListing; try done. lia.
  - apply updateListingPrice_Ok in Hd as [_ ->].
    apply (Inv_mono n); [lia|]. revert HI0. by apply Inv_frame.
Qed.

Lemma run_snoc txs tx s : run this (txs ++ [tx]) s = step this (run this txs s) tx.
Proof. unfold run. by rewrite fold_left_app. Qed.

Lemma Inv_run deployer txs :
  Forall (wf_tx this) txs -> N.of_nat (length txs) < uint256_modulus ->
  Inv this (N.of_nat (length txs)) (run this txs (constructor deployer)).
Proof.
  induction txs as [|tx txs IH] using rev_ind; intros Hwf Hlen.
  - apply Inv_constructor.
  - apply Forall_app in Hwf as [Hwf Htx]. apply List.Forall_inv in Htx.
    rewrite length_app in *. cbn in *.
    rewrite run_snoc.
    replace (N.of_nat (length txs + 1)) with (N.of_nat (length txs) + 1) by lia.
    apply Inv_step; [apply IH; [done|lia] | lia | done].
Qed.

End Invariant.

(** ** Reachable ledgers

    The states a ledger can be in: deployed by some account, then any
    sequence of transactions.  The length bound keeps the unchecked
    [Counters.increment] of [_tokenIds] away from its wrap-around. *)
Definition reachable (this : address) (s : State) : Prop :=
  exists deployer txs,
    Forall (wf_tx this) txs /\
    N.of_nat (length txs) < uint256_modulus /\
    s = run this txs (constructor deployer).

Lemma reachable_Inv this s :
  reachable this s -> exists n, n < uint256_modulus /\ Inv this n s.
Proof.
  intros (deployer & txs & Hwf & Hlen & ->).
  exists (N.of_nat (length txs)). split; [done|]. by apply Inv_run.
Qed.

(** * The views compute a filter

    The three views run the same two loops, with a different test on the
    record.  [count_body] and [fill_body] are those loop bodies with the test
    as a parameter, and [matching cond s] is the list of records in use that
    pass the test, in scan order. *)

Definition owner_is (a : address) (it : MarketItem.t) : bool :=
  MarketItem.owner it =? a.

Definition seller_is (a : address) (it : MarketItem.t) : bool :=
  MarketItem.seller it =? a.

Definition count_body (cond : MarketItem.t -> bool) (s : State)
  (i : N) (itemCount : N) : result N :=
  if cond (item s (i + 1)) then Ok (itemCount + 1) else Ok itemCount.

Definition fill_body (cond : MarketItem.t -> bool) (s : State)
  (i : N) (acc : list MarketItem.t * N) : result (list MarketItem.t * N) :=
  let '(items, currentIndex) := acc in
  if cond (item s (i + 1)) then
    let* items' := store items currentIndex (item s (i + 1)) in
    Ok (items', currentIndex + 1)
  else Ok (items, currentIndex).

Definition fetch_two_pass (cond : MarketItem.t -> bool) (s : State)
  : result (list MarketItem.t) :=
  let* itemCount := for_each (indices (_tokenIds s)) (count_body cond s) 0 in
  let* filled :=
    for_each (indices (_tokenIds s)) (fill_body cond s) (new_array itemCount, 0) in
  Ok (fst filled).

Definition matching (cond : MarketItem.t -> bool) (s : State) : list MarketItem.t :=
  List.filter cond (map (item s) (tokenIds_upto (_tokenIds s))).

Lemma fetchMyNFTs_two_pass a s : fetchMyNFTs a s = fetch_two_pass (owner_is a) s.
Proof. reflexivity. Qed.

Lemma fetchItemsListed_two_pass a s :
  fetchItemsListed a s = fetch_two_pass (seller_is a) s.
Proof. reflexivity. Qed.

Lemma fetchMarketItems_one_pass this s :
  fetchMarketItems this s =
  let* unsoldItemCount := checked_sub (_tokenIds s) (_itemsSold s) in
  let* filled :=
    for_each (indices (_tokenIds s)) (fill_body (owner_is this) s)
             (new_array unsoldItemCount, 0) in
  Ok (fst filled).
Proof. reflexivity. Qed.

Section Views.

Variables (cond : MarketItem.t -> bool) (s : State).

Let scanned (l : list N) : list MarketItem.t :=
  List.filter cond (map (fun i => item s (i + 1)) l).

Lemma count_loop l k :
  for_each l (count_body cond s) k = Ok (k + N.of_nat (length (scanned l))).
Proof.
  revert k. induction l as [|i l IH]; intros k; cbn.
  - f_equal. lia.
  - unfold count_body at 1. subst scanned. cbn in *.
    destruct (cond (item s (i + 1))); cbn; rewrite IH; cbn; f_equal; lia.
Qed.

Lemma fill_loop l items k :
  (k + length (scanned l) <= length items)%nat ->
  for_each l (fill_body cond s) (items, N.of_nat k) =
  Ok ((take k items ++ scanned l ++ drop (k + length (scanned l)) items)%list,
      N.of_nat (k + length (scanned l))).
Proof.
  revert items k. induction l as [|i l IH]; intros items k Hroom; cbn.
  - subst scanned. cbn. by rewrite Nat.add_0_r, take_drop.
  - unfold fill_body at 1. subst scanned. cbn in *.
    destruct (cond (item s (i + 1))) eqn:E; cbn in *.
    + unfold store.
      assert ((N.of_nat k <? N.of_nat (length items)) = true) as ->
        by (apply N.ltb_lt; lia).
      cbn. rewrite Nat2N.id.
      replace (N.of_nat k + 1) with (N.of_nat (S k)) by lia.
      rewrite IH by (rewrite length_insert; lia).
      rewrite (take_S_r _ _ (item s (i + 1)))
        by (apply list_lookup_insert_eq; lia).
      rewrite take_insert_ge by lia.
      rewrite drop_insert_lt by lia.
      rewrite <- app_assoc. cbn.
      rewrite <- !Nat.add_succ_comm. done.
    + by apply IH.
Qed.

Lemma scanned_indices : scanned (indices (_tokenIds s)) = matching cond s.
Proof. subst scanned. unfold matching, tokenIds_upto. by rewrite map_map. Qed.

(** Filling an array of exactly the right size returns the filter. *)
Lemma fill_exact n :
  N.to_nat n = length (matching cond s) ->
  for_each (indices (_tokenIds s)) (fill_body cond s) (new_array n, 0)
  = Ok (matching cond s, n).
Proof.
  intros Hn. change 0 with (N.of_nat 0).
  rewrite fill_loop; rewrite scanned_indices;
    unfold new_array; rewrite ?length_replicate; [|lia].
  cbn. rewrite <- Hn, drop_replicate, Nat.sub_diag. cbn.
  rewrite app_nil_r. f_equal. f_equal. lia.
Qed.

Lemma fetch_two_pass_eq : fetch_two_pass cond s = Ok (matching cond s).
Proof.
  unfold fetch_two_pass. rewrite count_loop, scanned_indices. cbn.
  rewrite fill_exact; [done|lia].
Qed.

End Views.

Lemma fetchMyNFTs_eq a s : fetchMyNFTs a s = Ok (matching (owner_is a) s).
Proof. rewrite fetchMyNFTs_two_pass. apply fetch_two_pass_eq. Qed.

Lemma fetchItemsListed_eq a s : fetchItemsListed a s = Ok (matching (seller_is a) s).
Proof. rewrite fetchItemsListed_two_pass. apply fetch_two_pass_eq. Qed.





(** * The ledger's operations as transactions

    The operations of the specification, named as there, each a call of the
    contract function that implements it. *)

Definition list_tx (caller : address) (payment : N) (uri : string) (price : N) : Tx :=
  mkTx (mkMsg caller payment) (CreateToken uri price).

Definition purchase_tx (caller : address) (payment : N) (itemId : N) : Tx :=
  mkTx (mkMsg caller payment) (CreateMarketSale itemId).

Definition resell_tx (caller : address) (payment : N) (itemId newPrice : N) : Tx :=
  mkTx (mkMsg caller payment) (ResellToken itemId newPrice).

Definition cancel_tx (caller : address) (itemId : N) : Tx :=
  mkTx (mkMsg caller 0) (CancelItemListing itemId).

Definition setListingFee_tx (caller : address) (newFee : N) : Tx :=
  mkTx (mkMsg caller 0) (UpdateListingPrice newFee).

(** The error kinds of the specification, and the kind each revert reason
    of the code stands for.  The contract has no reason of its own for an
    unknown identifier or for a purchase of an item that has left escrow:
    both surface from the token ledger's [_transfer]. *)
Inductive ErrorKind : Type :=
| InvalidPrice | InvalidPayment | NotFound | AlreadySold | Unauthorized | Forbidden.

Definition error_kind (reason : string) : option ErrorKind :=
  if String.eqb reason "Price must be greater than zero" then Some InvalidPrice
  else if String.eqb reason "Price must be equal to listing price" then Some InvalidPayment
  else if String.eqb reason
            "Please submit the asking price in order to complete the purchase"
       then Some InvalidPayment
  else if String.eqb reason "ERC721: invalid token ID" then Some NotFound
  else if String.eqb reason "ERC721: transfer from incorrect owner" then Some AlreadySold
  else if String.eqb reason "Only cancel items which are not sold yet" then Some AlreadySold
  else if String.eqb reason "Only item owner can perform this operation" then Some Unauthorized
  else if String.eqb reason "Only item seller can perform this operation" then Some Unauthorized
  else if String.eqb reason "Only marketplace owner can update listing price" then Some Forbidden
  else None.

Definition fails_with {A} (r : result A) (k : ErrorKind) : Prop :=
  exists reason, r = Revert reason /\ error_kind reason = Some k.

Example error_kind_of_purchase_reasons :
  error_kind "Please submit the asking price in order to complete the purchase"
  = Some InvalidPayment /\
  error_kind "ERC721: invalid token ID" = Some NotFound /\
  error_kind "ERC721: transfer from incorrect owner" = Some AlreadySold.
Proof. by vm_compute. Qed.

Example error_kind_of_cancel_reasons :
  error_kind "Only item seller can perform this operation" = Some Unauthorized /\
  error_kind "Only cancel items which are not sold yet" = Some AlreadySold /\
  error_kind EmptyString = None.
Proof. by vm_compute. Qed.

Ltac run_call :=
  unfold list_tx, purchase_tx, resell_tx, cancel_tx, setListingFee_tx,
    transact, dispatch, createToken, createMarketItem, createMarketSale,
    resellToken, cancelItemListing, updateListingPrice, _mint, _setTokenURI,
    _exists, _transfer, ownerOf, transfer, Counters.decrement;
  unfold_M; unfold receive_value, write_item, tokenOwner, item in *; cbn in *;
  repeat first
    [ match goal with
      | H : ?b = true |- context [?b] => rewrite H; cbn
      | H : ?b = false |- context [?b] => rewrite H; cbn
      end
    | rewrite N.eqb_refl; cbn
    | rewrite lookup_insert_eq; cbn ].

Section Operations.

Variable this : address.

Lemma transact_Ok tx s s' :
  transact this tx s = Ok s' ->
  exists u, dispatch this tx (receive_value (value (tx_msg tx)) s) = Ok (u, s').
Proof.
  unfold transact. destruct (dispatch this tx _) as [[u s1]| |]; try done.
  intros [= ->]. by exists u.
Qed.

Lemma list_Ok caller payment uri price s s' :
  transact this (list_tx caller payment uri price) s = Ok s' ->
  exists id, createToken this (mkMsg caller payment) uri price
               (receive_value payment s) = Ok (id, s').
Proof.
  intros H. apply transact_Ok in H as [u H].
  unfold dispatch, list_tx in H. cbn [tx_call tx_msg] in H.
  apply bind_Ok in H as (id & s1 & H & Hret).
  apply ret_Ok in Hret as [_ ->]. by exists id.
Qed.

Lemma purchase_Ok caller payment id s s' :
  transact this (purchase_tx caller payment id) s = Ok s' ->
  createMarketSale this (mkMsg caller payment) id (receive_value payment s)
  = Ok (tt, s').
Proof. intros H. by apply transact_Ok in H as [[] H]. Qed.

Lemma resell_Ok caller payment id newPrice s s' :
  transact this (resell_tx caller payment id newPrice) s = Ok s' ->
  resellToken this (mkMsg caller payment) id newPrice (receive_value payment s)
  = Ok (tt, s').
Proof. intros H. by apply transact_Ok in H as [[] H]. Qed.

Lemma cancel_Ok caller id s s' :
  transact this (cancel_tx caller id) s = Ok s' ->
  cancelItemListing this (mkMsg caller 0) id (receive_value 0 s) = Ok (tt, s').
Proof.
  intros H. apply transact_Ok in H as [[] H].
  unfold dispatch, cancel_tx in H. cbn [tx_call tx_msg] in H.
  apply bind_Ok in H as (? & ? & Hreq & H).
  by apply require_Ok in Hreq as [_ ->].
Qed.

(** *** purchase *)




Lemma purchase_succeeds caller id s :
  tokenOwner s id = this -> this ≠ address0 -> caller ≠ address0 ->
  listingPrice s <= balance s ->
  exists s', transact this (purchase_tx caller (MarketItem.price (item s id)) id) s = Ok s'.
Proof.
  intros Ho Ht Hc Hb.
  assert ((tokenOwner s id =? address0) = false) as Ho0
    by (apply N.eqb_neq; congruence).
  apply N.eqb_eq in Ho. apply N.eqb_neq in Hc.
  assert ((listingPrice s <=? balance s + MarketItem.price (item s id)) = true)
    as Hb1 by (apply N.leb_le; lia).
  assert ((MarketItem.price (item s id)
           <=? balance s + MarketItem.price (item s id) - listingPrice s) = true)
    as Hb2 by (apply N.leb_le; lia).
  run_call. eauto.
Qed.

(** *** cancel *)




Lemma cancel_succeeds caller id s :
  MarketItem.seller (item s id) = caller ->
  MarketItem.sold (item s id) = false ->
  tokenOwner s id = this -> this ≠ address0 -> caller ≠ address0 ->
  listingPrice s <= balance s ->
  exists s', transact this (cancel_tx caller id) s = Ok s'.
Proof.
  intros Hp Hs Ho Ht Hc Hb.
  assert ((tokenOwner s id =? address0) = false) as Ho0
    by (apply N.eqb_neq; congruence).
  apply N.eqb_eq in Hp, Ho. apply N.eqb_neq in Hc.
  assert ((listingPrice s <=? balance s + 0) = true) as Hb1
    by (apply N.leb_le; lia).
  run_call. eauto.
Qed.

(** *** list and resell *)

Lemma list_succeeds caller uri price s :
  caller ≠ address0 -> this ≠ address0 -> 0 < price ->
  tokenOwner s (Counters.increment (_tokenIds s)) = address0 ->
  exists s', transact this (list_tx caller (listingPrice s) uri price) s = Ok s'.
Proof.
  intros Hc Ht Hp Ho.
  apply N.eqb_neq in Hc, Ht. apply N.eqb_eq in Ho. apply N.ltb_lt in Hp.
  run_call. eauto.
Qed.

Lemma resell_succeeds caller id newPrice s :
  MarketItem.owner (item s id) = caller -> tokenOwner s id = caller ->
  caller ≠ address0 -> this ≠ address0 -> 0 < _itemsSold s ->
  exists s', transact this (resell_tx caller (listingPrice s) id newPrice) s = Ok s'.
Proof.
  intros Hio Ho Hc Ht Hpos.
  assert ((tokenOwner s id =? address0) = false) as Ho0
    by (apply N.eqb_neq; congruence).
  apply N.eqb_eq in Hio, Ho. apply N.eqb_neq in Hc, Ht. apply N.ltb_lt in Hpos.
  run_call. eauto.
Qed.

(** *** The listing fee *)

Lemma setListingFee_by_other caller v newFee s :
  caller ≠ owner s ->
  transact this (mkTx (mkMsg caller v) (UpdateListingPrice newFee)) s =
  Revert "Only marketplace owner can update listing price".
Proof.
  intros Hc. assert ((owner s =? caller) = false) as Hc'
    by (apply N.eqb_neq; congruence).
  by run_call.
Qed.

Lemma setListingFee_by_owner v newFee s :
  transact this (mkTx (mkMsg (owner s) v) (UpdateListingPrice newFee)) s =
  Ok (set_listingPrice newFee (receive_value v s)).
Proof. by run_call. Qed.

(** No function but [updateListingPrice] writes [listingPrice], and none
    writes [owner]. *)
Lemma transact_fee_owner tx s s' :
  transact this tx s = Ok s' ->
  owner s' = owner s /\
  ((forall p, tx_call tx ≠ UpdateListingPrice p) -> listingPrice s' = listingPrice s).
Proof.
  intros H. apply transact_Ok in H as [u H]. unfold dispatch in H.
  destruct (tx_call tx) eqn:Ec; inv_M.
  - apply createToken_Ok in H0 as (_ & (_ & _ & Hl & Ho & _) & _). by rewrite Hl, Ho.
  - apply createMarketSale_Ok in H as (_ & (_ & _ & Hl & Ho & _) & _). by rewrite Hl, Ho.
  - apply resellToken_Ok in H as (_ & (_ & _ & Hl & Ho & _) & _). by rewrite Hl, Ho.
  - apply cancelItemListing_Ok in H as (_ & (_ & _ & Hl & Ho & _) & _). by rewrite Hl, Ho.
  - apply updateListingPrice_Ok in H as [_ ->]. split; [done|].
    intros Hne. by destruct (Hne _listingPrice).
Qed.

End Operations.

(** * Ordering of the records a view returns *)








Lemma in_matching cond s it :
  In it (matching cond s) <->
  exists id, record_exists s id /\ it = item s id /\ cond it = true.
Proof.
  unfold matching. rewrite List.filter_In, in_map_iff. split.
  - intros [(id & <- & Hid) Hc]. exists id. by apply in_tokenIds_upto in Hid.
  - intros (id & Hid & -> & Hc). split; [|done]. exists id.
    split; [done|]. by apply in_tokenIds_upto.
Qed.

(** * A sample ledger

    One deployment and a few accounts, used to exhibit concrete runs. *)

Definition market : address := 1000.
Definition admin : address := 1.
Definition alice : address := 2.
Definition bob : address := 3.
Definition carol : address := 4.

(** 0.005 ether *)
Definition asking : N := 5000000000000000.

Definition fresh : State := constructor admin.

(** alice lists item 1 *)
Definition listed : State :=
  run market [list_tx alice ether_0_001 "ipfs://item-1" asking] fresh.

(** ... and bob buys it *)
Definition bought : State :=
  run market [purchase_tx bob asking 1] listed.

(** alice lists item 1, then the administrator doubles the listing fee *)
Definition fee_raised : State :=
  run market [setListingFee_tx admin (2 * ether_0_001)] listed.

Lemma reachable_fresh : reachable market fresh.
Proof.
  exists admin, []. split; [constructor|]. split; by vm_compute.
Qed.

Lemma reachable_listed : reachable market listed.
Proof.
  exists admin, [list_tx alice ether_0_001 "ipfs://item-1" asking].
  split; [by repeat constructor|]. split; by vm_compute.
Qed.

Lemma reachable_bought : reachable market bought.
Proof.
  exists admin, [list_tx alice ether_0_001 "ipfs://item-1" asking;
                 purchase_tx bob asking 1].
  split; [by repeat constructor|]. split; by vm_compute.
Qed.

Lemma reachable_fee_raised : reachable market fee_raised.
Proof.
  exists admin, [list_tx alice ether_0_001 "ipfs://item-1" asking;
                 setListingFee_tx admin (2 * ether_0_001)].
  split; [by repeat constructor|]. split; by vm_compute.
Qed.

(** ** The scenarios of the repository's test suite

    [test/NFTMarket.js] runs the contract on a local chain; the same runs on
    the model give the outcomes the tests expect. *)

Definition three_listed : State :=
  run market [list_tx admin ether_0_001 "https://some-token.uri/" asking;
              list_tx admin ether_0_001 "https://some-token.uri/" asking;
              list_tx admin ether_0_001 "https://some-token.uri/" asking] fresh.

Definition two_by_owner_one_by_buyer : State :=
  run market [list_tx admin ether_0_001 "https://some-token.uri/" asking;
              list_tx admin ether_0_001 "https://some-token.uri/" asking;
              list_tx bob ether_0_001 "https://some-token.uri/" asking] fresh.

Definition one_by_owner_two_by_buyer : State :=
  run market [list_tx admin ether_0_001 "https://some-token.uri/" asking;
              list_tx bob ether_0_001 "https://some-token.uri/" asking;
              list_tx bob ether_0_001 "https://some-token.uri/" asking] fresh.

Example test_revert_price_zero :
  transact market (list_tx admin ether_0_001 "https://some-token.uri/" 0) fresh
  = Revert "Price must be greater than zero".
Proof. by vm_compute. Qed.

Example test_revert_listing_price :
  transact market (list_tx admin 0 "https://some-token.uri/" asking) fresh
  = Revert "Price must be equal to listing price".
Proof. by vm_compute. Qed.

Example test_owner_is_market_after_listing :
  tokenOwner listed 1 = market /\ _tokenURIs listed !! 1 = Some "ipfs://item-1".
Proof. by vm_compute. Qed.

Example test_revert_asking_price :
  transact market (purchase_tx bob 20 1) listed
  = Revert "Please submit the asking price in order to complete the purchase".
Proof. by vm_compute. Qed.

Example test_owner_is_buyer_after_sale : tokenOwner bought 1 = bob.
Proof. by vm_compute. Qed.

Example test_resell_by_others_or_without_fee :
  transact market (resell_tx alice ether_0_001 1 asking) bought
  = Revert "Only item owner can perform this operation" /\
  transact market (resell_tx bob 0 1 asking) bought
  = Revert "Price must be equal to listing price".
Proof. by vm_compute. Qed.

Example test_owner_is_market_after_resell :
  tokenOwner (run market [resell_tx bob ether_0_001 1 asking] bought) 1 = market.
Proof. by vm_compute. Qed.

Example test_three_unsold :
  length <$> (match fetchMarketItems market three_listed with
              | Ok l => Some l | _ => None end) = Some 3%nat.
Proof. by vm_compute. Qed.

Example test_buyer_owns_one :
  length <$> (match fetchMyNFTs bob (run market [purchase_tx bob asking 1] three_listed) with
              | Ok l => Some l | _ => None end) = Some 1%nat.
Proof. by vm_compute. Qed.

Example test_two_listed_by_owner :
  length <$> (match fetchItemsListed admin two_by_owner_one_by_buyer with
              | Ok l => Some l | _ => None end) = Some 2%nat.
Proof. by vm_compute. Qed.

Example test_cancel_leaves_two :
  length <$> (match fetchMarketItems market
                      (run market [cancel_tx admin 1] one_by_owner_two_by_buyer) with
              | Ok l => Some l | _ => None end) = Some 2%nat.
Proof. by vm_compute. Qed.

(** * The claims *)





(** C8.  In every reachable ledger, for every caller other than the null
    account, each record returned by [fetchItemsListed] has
    [seller == caller], [sold == false] and is held in escrow: it is an
    active listing.  A successful purchase or cancel leaves the record's
    seller at the null account. *)
Theorem listed_by_caller_are_active this s caller :
  reachable this s -> caller ≠ address0 ->
  (exists l, fetchItemsListed caller s = Ok l /\
     forall it, In it l ->
       MarketItem.seller it = caller /\ MarketItem.sold it = false /\
       MarketItem.owner it = this) /\
  (forall buyer payment id s',
     transact this (purchase_tx buyer payment id) s = Ok s' ->
     MarketItem.seller (item s' id) = address0) /\
  (forall id s',
     transact this (cancel_tx caller id) s = Ok s' ->
     MarketItem.seller (item s' id) = address0).
Proof.
  intros Hr Hc. apply reachable_Inv in Hr as (n & Hn & HI).
  split; [|split].
  - exists (matching (seller_is caller) s). split; [apply fetchItemsListed_eq|].
    intros it Hit. apply in_matching in Hit as (id & Hid & -> & Hs).
    apply N.eqb_eq in Hs.
    destruct (inv_rec _ _ _ HI id Hid) as (_ & _ & _ & Hu & Hsold).
    destruct (MarketItem.sold (item s id)) eqn:E.
    + destruct (Hsold eq_refl) as [_ Hz]. congruence.
    + by destruct (Hu eq_refl) as [-> _].
  - intros buyer payment id s' H. apply purchase_Ok in H.
    apply createMarketSale_Ok in H as (_ & _ & Hit & _). by rewrite Hit.
  - intros id s' H. apply cancel_Ok in H.
    apply cancelItemListing_Ok in H as (_ & _ & Hit & _). by rewrite Hit.
Qed.

Lemma listed_by_caller_are_active_witness :
  exists l, fetchItemsListed alice listed = Ok l /\
    forall it, In it l ->
      MarketItem.seller it = alice /\ MarketItem.sold it = false /\
      MarketItem.owner it = market.
Proof.
  assert (alice ≠ address0) as Hne by done.
  exact (proj1 (listed_by_caller_are_active market listed alice reachable_listed Hne)).
Defined.



(** C9.  [updateListingPrice] called by the marketplace owner (the account
    that deployed the ledger) succeeds and sets the listing fee to the new
    value; called by anyone else it reverts with "Only marketplace owner can
    update listing price" (kind Forbidden) and the ledger, fee included, is
    left as it was.  No other transaction changes the fee, and no
    transaction changes who the owner is. *)
Theorem only_owner_sets_fee this s caller v newFee :
  (exists s', transact this (mkTx (mkMsg (owner s) v) (UpdateListingPrice newFee)) s
              = Ok s' /\ listingPrice s' = newFee) /\
  (caller ≠ owner s ->
   transact this (mkTx (mkMsg caller v) (UpdateListingPrice newFee)) s
   = Revert "Only marketplace owner can update listing price" /\
   fails_with (transact this (mkTx (mkMsg caller v) (UpdateListingPrice newFee)) s)
              Forbidden /\
   step this s (mkTx (mkMsg caller v) (UpdateListingPrice newFee)) = s) /\
  (forall tx s', transact this tx s = Ok s' ->
     owner s' = owner s /\
     ((forall p, tx_call tx ≠ UpdateListingPrice p) ->
      listingPrice s' = listingPrice s)) /\
  (forall deployer txs, owner (run this txs (constructor deployer)) = deployer).
Proof.
  split; [|split; [|split]].
  - eexists. by rewrite setListingFee_by_owner.
  - intros Hc. unfold step.
    rewrite (setListingFee_by_other this caller v newFee s Hc).
    split; [done|]. split; [|done]. by eexists.
  - intros tx s'. apply transact_fee_owner.
  - intros deployer txs. induction txs as [|tx txs IH] using rev_ind; [done|].
    rewrite run_snoc. unfold step.
    destruct (transact this tx _) as [s1| |] eqn:E; try done.
    apply transact_fee_owner in E as [-> _]. done.
Qed.

Lemma only_owner_sets_fee_witness :
  bob ≠ owner listed /\
  transact market (mkTx (mkMsg bob 0) (UpdateListingPrice 7)) listed
  = Revert "Only marketplace owner can update listing price" /\
  fails_with (transact market (mkTx (mkMsg bob 0) (UpdateListingPrice 7)) listed)
             Forbidden /\
  step market listed (mkTx (mkMsg bob 0) (UpdateListingPrice 7)) = listed.
Proof.
  assert (bob ≠ owner listed) as Hne by (by vm_compute).
  split; [exact Hne|].
  exact (proj1 (proj2 (only_owner_sets_fee market listed bob 0 7)) Hne).
Defined.

(** ** Failures of purchase *)






(** ** Effects of purchase *)






(** C2.  [createMarketItem] refuses a zero price, [resellToken] does not
    look at the price at all: after alice listed item 1 and bob bought it,
    bob's resell at price 0 with the listing fee attached succeeds, and the
    rewritten record is an active listing with [price = 0].  A listing, on
    the other hand, never succeeds with a zero price. *)
Theorem resell_accepts_zero_price :
  (exists s', transact market (resell_tx bob ether_0_001 1 0) bought = Ok s' /\
     MarketItem.price (item s' 1) = 0 /\
     MarketItem.sold (item s' 1) = false /\
     fetchMarketItems market s' = Ok [item s' 1]) /\
  (forall this s caller payment uri s',
     transact this (list_tx caller payment uri 0) s ≠ Ok s').
Proof.
  split.
  - eexists. split; [by vm_compute|]. by vm_compute.
  - intros this s caller payment uri s' H. apply list_Ok in H as [id H].
    apply createToken_Ok in H as ((_ & _ & Hp & _) & _). lia.
Qed.



(** ** Cancel *)






(** * Further properties of the contract *)

(** ** Ether is conserved *)






(** ** The listing fee along a run *)

(** The fee a run leaves in force: the value of the last
    [updateListingPrice] sent by the deployer, 0.001 ether if there is
    none. *)
Definition fee_after (deployer : address) (txs : list Tx) : N :=
  fold_left
    (fun fee tx =>
       match tx_call tx with
       | UpdateListingPrice p =>
           if sender (tx_msg tx) =? deployer then p else fee
       | _ => fee
       end)
    txs ether_0_001.

Lemma step_fee this s tx :
  owner (step this s tx) = owner s /\
  listingPrice (step this s tx) =
  match tx_call tx with
  | UpdateListingPrice p => if sender (tx_msg tx) =? owner s then p else listingPrice s
  | _ => listingPrice s
  end.
Proof.
  unfold step. destruct (transact this tx s) as [s'| |] eqn:E.
  - pose proof (transact_fee_owner this tx s s' E) as [Ho Hl]. split; [done|].
    destruct tx as [[snd v] c]. destruct c; cbn in *;
      try (apply Hl; intros p; discriminate).
    destruct (snd =? owner s) eqn:Es.
    + apply N.eqb_eq in Es. subst snd.
      rewrite setListingFee_by_owner in E. by injection E as <-.
    + apply N.eqb_neq in Es.
      rewrite (setListingFee_by_other this snd v _ s Es) in E. discriminate.
  - split; [done|]. destruct tx as [[snd v] c]. destruct c; cbn in *; try done.
    destruct (snd =? owner s) eqn:Es; [|done].
    apply N.eqb_eq in Es. subst snd.
    rewrite setListingFee_by_owner in E. discriminate.
  - split; [done|]. destruct tx as [[snd v] c]. destruct c; cbn in *; try done.
    destruct (snd =? owner s) eqn:Es; [|done].
    apply N.eqb_eq in Es. subst snd.
    rewrite setListingFee_by_owner in E. discriminate.
Qed.

(** X2.  After any run from deployment, [getListingPrice] returns the value
    of the last [updateListingPrice] sent by the deployer, whatever was
    attached to it and whatever else happened in between, and 0.001 ether
    when the deployer never sent one; it leaves the ledger as it is. *)
Theorem getListingPrice_after_run this deployer txs :
  getListingPrice (run this txs (constructor deployer))
  = Ok (fee_after deployer txs, run this txs (constructor deployer)).
Proof.
  unfold getListingPrice, gets. f_equal. f_equal.
  assert (owner (run this txs (constructor deployer)) = deployer /\
          listingPrice (run this txs (constructor deployer)) = fee_after deployer txs)
    as [_ H]; [|done].
  induction txs as [|tx txs [IHo IHl]] using rev_ind; [done|].
  rewrite run_snoc. unfold fee_after in *. rewrite fold_left_app. cbn.
  destruct (step_fee this (run this txs (constructor deployer)) tx) as [Ho Hl].
  rewrite Ho, Hl, IHo, IHl. done.
Qed.

(** ** Token URIs *)

(** [tokenURI] of ERC721URIStorage, the view the tests and the front end
    call on the contract for every record they show; the contract keeps the
    default empty base URI, so the stored string is returned as it is. *)
Definition tokenURI (id : N) : M string :=
  e <- _exists id ;;
  require e "ERC721: invalid token ID" ;;;
  gets (fun s => default EmptyString (_tokenURIs s !! id)).

Ltac inv_calls :=
  repeat match goal with
  | H : _transfer _ _ _ _ = Ok _ |- _ =>
      apply _transfer_Ok in H; destruct H as (? & ? & ? & ?)
  | H : transfer _ _ _ = Ok _ |- _ =>
      apply transfer_Ok in H; destruct H as (? & ?)
  | H : _mint _ _ _ = Ok _ |- _ => apply _mint_Ok in H; destruct H as (? & ? & ?)
  | H : _setTokenURI _ _ _ = Ok _ |- _ =>
      apply _setTokenURI_Ok in H; destruct H as (? & ?)
  | H : (if ?b then _ else _) = Ok _ |- _ =>
      let E := fresh "E" in destruct b eqn:E; [|discriminate H]
  end.

Lemma createToken_stores_uri this msg uri p s id s' :
  createToken this msg uri p s = Ok (id, s') ->
  tokenOwner s id = address0 /\ tokenOwner s' id ≠ address0 /\
  _tokenURIs s' !! id = Some uri /\
  (forall j, j ≠ id ->
     tokenOwner s' j = tokenOwner s j /\ _tokenURIs s' !! j = _tokenURIs s !! j).
Proof.
  unfold createToken, createMarketItem. intros H. inv_M. inv_calls.
  bool_to_prop. subst. simpl_state. repeat split; try done.
  all: intros; by simpl_state.
Qed.

(** A minted token stays minted and keeps its URI through any transaction. *)
Lemma transact_keeps_uri this tx s s' id :
  transact this tx s = Ok s' -> tokenOwner s id ≠ address0 ->
  tokenOwner s' id ≠ address0 /\ _tokenURIs s' !! id = _tokenURIs s !! id.
Proof.
  intros H Hm. apply transact_Ok in H as [u H]. unfold dispatch in H.
  destruct (tx_call tx) eqn:Ec; inv_M.
  - apply createToken_stores_uri in H0 as (Hf & _ & _ & Hse).
    change (tokenOwner (receive_value (value (tx_msg tx)) s)) with (tokenOwner s) in *.
    assert (id ≠ x) as Hne by congruence.
    destruct (Hse id Hne) as [-> ->]. done.
  - unfold createMarketSale in H. inv_M. inv_calls. bool_to_prop. subst.
    destruct (decide (tokenId = id)) as [->|Hne]; simpl_state; done.
  - unfold resellToken, Counters.decrement in H. inv_M. inv_calls.
    bool_to_prop. simplify_eq.
    destruct (decide (tokenId = id)) as [->|Hne]; simpl_state; done.
  - unfold cancelItemListing in H. inv_M. inv_calls. bool_to_prop. subst.
    destruct (decide (tokenId = id)) as [->|Hne]; simpl_state; done.
  - apply updateListingPrice_Ok in H as [_ ->]. done.
Qed.

Lemma run_keeps_uri this txs s id :
  tokenOwner s id ≠ address0 ->
  tokenOwner (run this txs s) id ≠ address0 /\
  _tokenURIs (run this txs s) !! id = _tokenURIs s !! id.
Proof.
  intros Hm. induction txs as [|tx txs [IHo IHu]] using rev_ind; [done|].
  rewrite run_snoc. unfold step.
  destruct (transact this tx _) as [s'| |] eqn:E; try done.
  destruct (transact_keeps_uri this tx _ s' id E IHo) as [Ho Hu].
  split; [done|]. by rewrite Hu.
Qed.

Lemma tokenURI_minted id s uri :
  tokenOwner s id ≠ address0 -> _tokenURIs s !! id = Some uri ->
  tokenURI id s = Ok (uri, s).
Proof.
  intros Hm Hu. apply N.eqb_neq in Hm.
  unfold tokenURI, _exists; unfold_M. cbn. rewrite Hm. cbn. by rewrite Hu.
Qed.

(** X3.  The URI given to [createToken] is stored as it is under the new
    identifier, and nothing that happens afterwards changes it: after any
    further sequence of transactions, by anyone, [tokenURI] of that
    identifier still succeeds and returns the same string. *)
Theorem tokenURI_is_permanent this msg uri p s id s' txs :
  createToken this msg uri p s = Ok (id, s') ->
  tokenURI id (run this txs s') = Ok (uri, run this txs s').
Proof.
  intros H. apply createToken_stores_uri in H as (_ & Hm & Hu & _).
  destruct (run_keeps_uri this txs s' id Hm) as [Hm' Hu'].
  apply tokenURI_minted; [done|]. by rewrite Hu'.
Qed.

Lemma tokenURI_is_permanent_witness :
  tokenURI 1 (run market [purchase_tx bob asking 1;
                          resell_tx bob ether_0_001 1 7;
                          list_tx carol ether_0_001 "ipfs://item-2" 9]
                listed)
  = Ok ("ipfs://item-1",
        run market [purchase_tx bob asking 1;
                    resell_tx bob ether_0_001 1 7;
                    list_tx carol ether_0_001 "ipfs://item-2" 9]
          listed).
Proof.
  assert (createToken market (mkMsg alice ether_0_001) "ipfs://item-1" asking
            (receive_value ether_0_001 fresh) = Ok (1, listed)) as H
    by (by vm_compute).
  exact (tokenURI_is_permanent market _ _ _ _ _ _ _ H).
Defined.

(** ** Listing *)

Section Listing.

Variable this : address.

Lemma list_null_caller payment uri price s :
  transact this (list_tx address0 payment uri price) s =
  Revert "ERC721: mint to the zero address".
Proof. by run_call. Qed.

Lemma list_zero_price caller payment uri s :
  caller ≠ address0 ->
  tokenOwner s (Counters.increment (_tokenIds s)) = address0 ->
  transact this (list_tx caller payment uri 0) s =
  Revert "Price must be greater than zero".
Proof.
  intros Hc Ho. apply N.eqb_neq in Hc. apply N.eqb_eq in Ho. by run_call.
Qed.

Lemma list_wrong_fee caller payment uri price s :
  caller ≠ address0 -> 0 < price -> payment ≠ listingPrice s ->
  tokenOwner s (Counters.increment (_tokenIds s)) = address0 ->
  transact this (list_tx caller payment uri price) s =
  Revert "Price must be equal to listing price".
Proof.
  intros Hc Hp Hf Ho.
  apply N.eqb_neq in Hc, Hf. apply N.eqb_eq in Ho. apply N.ltb_lt in Hp.
  by run_call.
Qed.

(** The next identifier is unused as long as the counter has room. *)
Lemma next_id_fresh n s :
  Inv this n s -> _tokenIds s + 1 < uint256_modulus ->
  Counters.increment (_tokenIds s) = _tokenIds s + 1 /\
  tokenOwner s (Counters.increment (_tokenIds s)) = address0.
Proof.
  intros HI Hroom. rewrite increment_small by done. split; [done|].
  apply (inv_fresh _ _ _ HI). unfold record_exists. lia.
Qed.

End Listing.

(** X4.  Listing in a reachable ledger whose identifier counter has room.
    The null account cannot list.  For any other caller a zero price is
    refused with "Price must be greater than zero" whatever is attached, a
    positive price with anything but the current listing fee attached is
    refused with "Price must be equal to listing price", and a positive
    price with exactly the fee always succeeds. *)
Theorem list_outcomes this s caller payment uri price :
  reachable this s -> _tokenIds s + 1 < uint256_modulus ->
  this ≠ address0 -> caller ≠ address0 ->
  transact this (list_tx address0 payment uri price) s =
    Revert "ERC721: mint to the zero address" /\
  (price = 0 ->
   transact this (list_tx caller payment uri price) s =
   Revert "Price must be greater than zero") /\
  (0 < price -> payment ≠ listingPrice s ->
   transact this (list_tx caller payment uri price) s =
   Revert "Price must be equal to listing price") /\
  (0 < price -> payment = listingPrice s ->
   exists s', transact this (list_tx caller payment uri price) s = Ok s').
Proof.
  intros Hr Hroom Hthis Hc. apply reachable_Inv in Hr as (n & Hn & HI).
  destruct (next_id_fresh this n s HI Hroom) as [_ Hfresh].
  split; [apply list_null_caller|]. split; [|split].
  - intros ->. by apply list_zero_price.
  - intros Hp Hf. by apply list_wrong_fee.
  - intros Hp ->. by apply list_succeeds.
Qed.

Lemma list_outcomes_witness :
  transact market (list_tx carol 5 "ipfs://item-2" 0) bought =
  Revert "Price must be greater than zero" /\
  transact market (list_tx carol 5 "ipfs://item-2" 9) bought =
  Revert "Price must be equal to listing price".
Proof.
  assert (_tokenIds bought + 1 < uint256_modulus) as Hroom by (by vm_compute).
  assert (market ≠ address0) as Ht by (by vm_compute).
  assert (carol ≠ address0) as Hc by (by vm_compute).
  assert (0 < 9) as Hp by (by vm_compute).
  assert (5 ≠ listingPrice bought) as Hf by (by vm_compute).
  split.
  - exact (proj1 (proj2 (list_outcomes market bought carol 5 "ipfs://item-2" 0
                           reachable_bought Hroom Ht Hc)) eq_refl).
  - exact (proj1 (proj2 (proj2 (list_outcomes market bought carol 5 "ipfs://item-2" 9
                                  reachable_bought Hroom Ht Hc))) Hp Hf).
Defined.

(** X5.  What a successful listing does, in a reachable ledger whose
    identifier counter has room: it allocates the identifier that follows
    the last one, never used before; writes the record (identifier, seller =
    caller, owner = the ledger, the price, not sold); puts the token in the
    ledger's custody; keeps the attached fee in the ledger's balance and
    pays nothing out; leaves the sold counter, the fee and every other
    record as they were. *)
Theorem list_effects this s caller payment uri price s' :
  reachable this s -> _tokenIds s + 1 < uint256_modulus ->
  transact this (list_tx caller payment uri price) s = Ok s' ->
  _tokenIds s' = _tokenIds s + 1 /\
  ~ record_exists s (_tokenIds s') /\
  item s' (_tokenIds s') = MarketItem.mk (_tokenIds s') caller this price false /\
  tokenOwner s' (_tokenIds s') = this /\
  _itemsSold s' = _itemsSold s /\ listingPrice s' = listingPrice s /\
  balance s' = balance s + listingPrice s /\ sent s' = sent s /\
  same_elsewhere (_tokenIds s') s s'.
Proof.
  intros Hr Hroom Hok. apply reachable_Inv in Hr as (n & Hn & HI).
  destruct (next_id_fresh this n s HI Hroom) as [Hinc _].
  apply list_Ok in Hok as [id Hok].
  apply createToken_Ok in Hok
    as ((_ & _ & _ & Hv & Hid & _) & (Ht & Hs & Hl & _ & Hb & Hsent) & Hit & Hto & Hse).
  cbn in Hv, Hid, Hs, Hl, Hb, Hsent. rewrite Hinc in Hid. subst id payment.
  rewrite Ht. split; [done|]. split; [unfold record_exists; lia|].
  repeat split; try done.
  all: by destruct (Hse j H).
Qed.

Lemma list_effects_witness :
  _tokenIds listed = _tokenIds fresh + 1 /\
  item listed (_tokenIds listed)
  = MarketItem.mk (_tokenIds listed) alice market asking false /\
  balance listed = balance fresh + listingPrice fresh.
Proof.
  assert (_tokenIds fresh + 1 < uint256_modulus) as Hroom by (by vm_compute).
  assert (transact market (list_tx alice ether_0_001 "ipfs://item-1" asking) fresh
          = Ok listed) as Hok by (by vm_compute).
  pose proof (list_effects market fresh alice _ _ _ listed reachable_fresh Hroom Hok)
    as (H1 & _ & H3 & _ & _ & _ & H7 & _).
  exact (conj H1 (conj H3 H7)).
Defined.

(** ** Resell *)

Lemma filter_length_pos (f : N -> bool) (l : list N) (a : N) :
  In a l -> f a = true -> (0 < length (List.filter f l))%nat.
Proof.
  intros Hin Hf.
  assert (In a (List.filter f l)) as H by (by apply List.filter_In).
  destruct (List.filter f l); [by destruct H|cbn; lia].
Qed.

Lemma sold_count_pos s id :
  record_exists s id -> is_sold s id = true -> 0 < sold_count s.
Proof.
  intros Hid Hs. unfold sold_count.
  pose proof (filter_length_pos (is_sold s) (tokenIds_upto (_tokenIds s)) id) as H.
  rewrite in_tokenIds_upto in H. specialize (H Hid Hs). lia.
Qed.

Lemma unsold_count_pos s id :
  record_exists s id -> is_sold s id = false -> 0 < unsold_count s.
Proof.
  intros Hid Hs. unfold unsold_count.
  pose proof (filter_length_pos (fun j => negb (is_sold s j))
                (tokenIds_upto (_tokenIds s)) id) as H.
  rewrite in_tokenIds_upto in H. rewrite Hs in H. specialize (H Hid eq_refl). lia.
Qed.

Section Resell.

Variable this : address.



(** A resell by the record's owner with the fee attached, on a ledger that
    satisfies the invariant. *)
Lemma resell_by_owner_Inv n s caller id newPrice :
  Inv this n s -> this ≠ address0 -> caller ≠ this ->
  record_exists s id -> MarketItem.owner (item s id) = caller ->
  exists s',
    transact this (resell_tx caller (listingPrice s) id newPrice) s = Ok s' /\
    Inv this n s' /\
    MarketItem.sold (item s id) = true /\
    item s' id = MarketItem.mk id caller this newPrice false /\
    tokenOwner s' id = this /\
    _tokenIds s' = _tokenIds s /\
    _itemsSold s' + 1 = _itemsSold s /\ listingPrice s' = listingPrice s /\
    balance s' = balance s + listingPrice s /\ sent s' = sent s /\
    same_elsewhere id s s'.
Proof.
  intros HI Hthis Hc Hid Hio.
  destruct (inv_rec _ _ _ HI id Hid) as (Hk & Ho & Hnz & Hu & _).
  assert (MarketItem.sold (item s id) = true) as Hsold.
  { destruct (MarketItem.sold (item s id)) eqn:E; [done|].
    destruct (Hu eq_refl) as [He _]. congruence. }
  pose proof (sold_count_pos s id Hid Hsold) as Hpos.
  rewrite <- (inv_sold _ _ _ HI) in Hpos.
  destruct (resell_succeeds this caller id newPrice s) as [s' Hok];
    try done; try congruence.
  exists s'. split; [done|].
  pose proof Hok as Hok'. apply resell_Ok in Hok'.
  pose proof (Inv_resellToken this n _ (mkMsg caller (listingPrice s)) _ _ _ _
                (Inv_receive_value this n _ s HI) Hc Hok') as HI'.
  apply resellToken_Ok in Hok'
    as (_ & (Ht & Hs & Hl & _ & Hb & Hsent) & Hit & Hto & Hse).
  change (item (receive_value (listingPrice s) s)) with (item s) in *.
  cbn in Ht, Hs, Hl, Hb, Hsent, Hit. rewrite Hk in Hit.
  split; [exact HI'|]. repeat (split; [done || lia|]).
  intros j Hj. by destruct (Hse j Hj).
Qed.

End Resell.



(** ** Cancel, then list again *)

(** X7.  A cancelled item is not gone for good.  In a reachable ledger whose
    balance covers the fee, after the seller (an account other than the
    ledger) cancels an active listing, the same account can resell the item
    with the fee attached at any new price: both calls succeed, the record
    is an active listing of that account again at the new price, and the
    sold counter and the ledger's balance are back where they were, while
    one listing fee has gone to the marketplace owner. *)
Theorem cancel_then_resell this s caller id newPrice :
  reachable this s -> caller ≠ this ->
  record_exists s id ->
  MarketItem.seller (item s id) = caller -> MarketItem.sold (item s id) = false ->
  listingPrice s <= balance s ->
  exists s1 s2,
    transact this (cancel_tx caller id) s = Ok s1 /\
    transact this (resell_tx caller (listingPrice s1) id newPrice) s1 = Ok s2 /\
    item s2 id = MarketItem.mk id caller this newPrice false /\
    tokenOwner s2 id = this /\
    _itemsSold s2 = _itemsSold s /\ balance s2 = balance s /\
    listingPrice s2 = listingPrice s /\
    sent s2 = (sent s ++ [(owner s, listingPrice s)])%list.
Proof.
  intros Hr Hc Hid Hseller Hflag Hbal.
  apply reachable_Inv in Hr as (n & Hn & HI).
  destruct (inv_rec _ _ _ HI id Hid) as (Hk & Ho & Hnz & Hu & _).
  destruct (Hu Hflag) as [Hesc Hsnz].
  assert (this ≠ address0) as Hthis by congruence.
  destruct (cancel_succeeds this caller id s) as [s1 H1]; try done; try congruence.
  pose proof H1 as H1'. apply cancel_Ok in H1'.
  pose proof (Inv_cancelItemListing this n _ (mkMsg caller 0) _ _ _
                (Inv_receive_value this n _ s HI) Hn Hc H1') as HI1.
  apply cancelItemListing_Ok in H1'
    as (_ & (Ht1 & Hs1 & Hl1 & Ho1 & Hb1 & Hsent1) & Hit1 & _ & _).
  change (item (receive_value 0 s)) with (item s) in *.
  cbn in Ht1, Hs1, Hl1, Ho1, Hb1, Hsent1, Hit1.
  assert (record_exists s1 id) as Hid1 by (unfold record_exists; by rewrite Ht1).
  assert (MarketItem.owner (item s1 id) = caller) as Hio1 by (by rewrite Hit1).
  destruct (resell_by_owner_Inv this n s1 caller id newPrice HI1 Hthis Hc Hid1 Hio1)
    as (s2 & H2 & _ & _ & Hit2 & Hto2 & _ & Hs2 & Hl2 & Hb2 & Hsent2 & _).
  exists s1, s2. repeat (split; [done|]).
  assert (_itemsSold s1 = _itemsSold s + 1) as Hs1'.
  { rewrite Hs1. apply increment_small.
    pose proof (unsold_count_pos s id Hid Hflag).
    pose proof (sold_unsold_count s). pose proof (inv_bound _ _ _ HI).
    rewrite (inv_sold _ _ _ HI). lia. }
  split; [lia|]. split; [lia|]. split; [congruence|]. congruence.
Qed.

Lemma cancel_then_resell_witness :
  exists s1 s2,
    transact market (cancel_tx alice 1) listed = Ok s1 /\
    transact market (resell_tx alice (listingPrice s1) 1 7) s1 = Ok s2 /\
    item s2 1 = MarketItem.mk 1 alice market 7 false.
Proof.
  assert (alice ≠ market) as Hc by (by vm_compute).
  assert (record_exists listed 1) as Hid by (by vm_compute).
  assert (MarketItem.seller (item listed 1) = alice) as Hs by (by vm_compute).
  assert (MarketItem.sold (item listed 1) = false) as Hf by (by vm_compute).
  assert (listingPrice listed <= balance listed) as Hb by (by vm_compute).
  destruct (cancel_then_resell market listed alice 1 7 reachable_listed Hc Hid Hs Hf Hb)
    as (s1 & s2 & H1 & H2 & H3 & _).
  exists s1, s2. exact (conj H1 (conj H2 H3)).
Defined.

(** ** When a purchase goes through *)

Section PurchaseFunds.

Variable this : address.

Lemma purchase_null_caller id s :
  tokenOwner s id = this -> this ≠ address0 ->
  transact this (purchase_tx address0 (MarketItem.price (item s id)) id) s =
  Revert "ERC721: transfer to the zero address".
Proof.
  intros Ho Ht.
  assert ((tokenOwner s id =? address0) = false) as Ho0
    by (apply N.eqb_neq; congruence).
  apply N.eqb_eq in Ho. by run_call.
Qed.

Lemma purchase_underfunded caller id s :
  tokenOwner s id = this -> this ≠ address0 -> caller ≠ address0 ->
  balance s < listingPrice s ->
  transact this (purchase_tx caller (MarketItem.price (item s id)) id) s =
  Revert EmptyString.
Proof.
  intros Ho Ht Hc Hb.
  assert ((tokenOwner s id =? address0) = false) as Ho0
    by (apply N.eqb_neq; congruence).
  apply N.eqb_eq in Ho. apply N.eqb_neq in Hc.
  destruct (listingPrice s <=? balance s + MarketItem.price (item s id)) eqn:E1.
  - assert ((MarketItem.price (item s id)
             <=? balance s + MarketItem.price (item s id) - listingPrice s) = false)
      as E2 by (apply N.leb_gt; apply N.leb_le in E1; lia).
    by run_call.
  - by run_call.
Qed.

End PurchaseFunds.

(** X8.  For an active listing in a reachable ledger, a purchase at exactly
    the record's price by any account but the null one succeeds if and only
    if the ledger's balance before the call covers the current listing fee;
    when it does not, the call reverts in one of its two transfers, however
    much the buyer attached.  A purchase sent by the null account is
    refused by the token transfer. *)
Theorem purchase_needs_fee_in_balance this s caller id :
  reachable this s -> record_exists s id ->
  MarketItem.sold (item s id) = false -> caller ≠ address0 ->
  (listingPrice s <= balance s <->
   exists s', transact this (purchase_tx caller (MarketItem.price (item s id)) id) s
              = Ok s') /\
  (balance s < listingPrice s ->
   transact this (purchase_tx caller (MarketItem.price (item s id)) id) s
   = Revert EmptyString) /\
  transact this (purchase_tx address0 (MarketItem.price (item s id)) id) s
  = Revert "ERC721: transfer to the zero address".
Proof.
  intros Hr Hid Hflag Hc. apply reachable_Inv in Hr as (n & Hn & HI).
  destruct (inv_rec _ _ _ HI id Hid) as (_ & Ho & Hnz & Hu & _).
  destruct (Hu Hflag) as [Hesc _].
  assert (tokenOwner s id = this) as Hto by congruence.
  assert (this ≠ address0) as Hthis by congruence.
  split; [|split].
  - split.
    + intros Hb. by apply purchase_succeeds.
    + intros [s' Hok]. destruct (N.le_gt_cases (listingPrice s) (balance s)) as [|Hlt];
        [done|].
      rewrite (purchase_underfunded this caller id s Hto Hthis Hc Hlt) in Hok.
      discriminate.
  - intros Hlt. by apply purchase_underfunded.
  - by apply purchase_null_caller.
Qed.

Lemma purchase_needs_fee_in_balance_witness :
  transact market (purchase_tx bob (MarketItem.price (item fee_raised 1)) 1) fee_raised
  = Revert EmptyString.
Proof.
  assert (record_exists fee_raised 1) as Hid by (by vm_compute).
  assert (MarketItem.sold (item fee_raised 1) = false) as Hf by (by vm_compute).
  assert (bob ≠ address0) as Hc by (by vm_compute).
  assert (balance fee_raised < listingPrice fee_raised) as Hb by (by vm_compute).
  exact (proj1 (proj2 (purchase_needs_fee_in_balance market fee_raised bob 1
                         reachable_fee_raised Hid Hf Hc)) Hb).
Defined.

(** ** One fee held per active listing *)

Definition is_fee_update (tx : Tx) : bool :=
  match tx_call tx with
  | UpdateListingPrice _ => true
  | _ => false
  end.






(** ** The record and the token ledger agree *)






(** ** One transaction, one item *)

(** The identifier a transaction works on. *)
Definition target (tx : Tx) (s : State) : N :=
  match tx_call tx with
  | CreateToken _ _ => Counters.increment (_tokenIds s)
  | CreateMarketSale id => id
  | ResellToken id _ => id
  | CancelItemListing id => id
  | UpdateListingPrice _ => 0
  end.

(** X11.  A transaction that succeeds touches one item only: the record and
    the token owner of every identifier other than the one it works on (the
    identifier named in the call, or the newly allocated one for
    [createToken]) are left exactly as they were, whoever sent it; a fee
    update touches no record at all; and only [createToken] moves the
    identifier counter. *)
Theorem transaction_touches_one_item this tx s s' :
  transact this tx s = Ok s' ->
  (forall j, j ≠ target tx s ->
     item s' j = item s j /\ tokenOwner s' j = tokenOwner s j) /\
  (is_fee_update tx = true -> forall j,
     item s' j = item s j /\ tokenOwner s' j = tokenOwner s j) /\
  ((forall uri p, tx_call tx ≠ CreateToken uri p) -> _tokenIds s' = _tokenIds s).
Proof.
  intros H. apply transact_Ok in H as [u H].
  unfold dispatch, target, is_fee_update in *.
  destruct (tx_call tx) eqn:Ec; inv_M.
  - match goal with Hc : createToken _ _ _ _ _ = Ok _ |- _ =>
      apply createToken_Ok in Hc as ((_ & _ & _ & _ & Hid & _) & _ & _ & _ & Hse) end.
    cbn in Hid. subst. split; [|split]; try done.
    intros Hn. exfalso. by eapply Hn.
  - match goal with Hc : createMarketSale _ _ _ _ = Ok _ |- _ =>
      apply createMarketSale_Ok in Hc as (_ & (Ht & _) & _ & _ & Hse) end.
    split; [|split]; done.
  - match goal with Hc : resellToken _ _ _ _ _ = Ok _ |- _ =>
      apply resellToken_Ok in Hc as (_ & (Ht & _) & _ & _ & Hse) end.
    split; [|split]; done.
  - match goal with Hc : cancelItemListing _ _ _ _ = Ok _ |- _ =>
      apply cancelItemListing_Ok in Hc as (_ & (Ht & _) & _ & _ & Hse) end.
    split; [|split]; done.
  - apply updateListingPrice_Ok in H as [_ ->]. split; [|split]; done.
Qed.

Lemma transaction_touches_one_item_witness :
  item bought 2 = item listed 2 /\ tokenOwner bought 2 = tokenOwner listed 2.
Proof.
  assert (transact market (purchase_tx bob asking 1) listed = Ok bought) as H
    by (by vm_compute).
  assert (2 ≠ target (purchase_tx bob asking 1) listed) as Hne by (by vm_compute).
  exact (proj1 (transaction_touches_one_item market _ listed bought H) 2 Hne).
Defined.

(** ** The views on any storage *)

Lemma fill_loop_overflow cond s l items k :
  (k <= length items)%nat ->
  (length items
   < k + length (List.filter cond (map (fun i => item s (i + 1)) l)))%nat ->
  for_each l (fill_body cond s) (items, N.of_nat k) = Panic 50.
Proof.
  revert items k. induction l as [|i l IH]; intros items k Hk Hover; cbn in *.
  - lia.
  - unfold fill_body at 1.
    destruct (cond (item s (i + 1))) eqn:E; cbn in *.
    + unfold store. destruct (N.of_nat k <? N.of_nat (length items)) eqn:Eb; cbn.
      * apply N.ltb_lt in Eb. rewrite Nat2N.id.
        replace (N.of_nat k + 1) with (N.of_nat (S k)) by lia.
        apply IH; rewrite length_insert; lia.
      * done.
    + by apply IH.
Qed.

Lemma fill_loop_padded cond s n :
  (length (matching cond s) <= N.to_nat n)%nat ->
  for_each (indices (_tokenIds s)) (fill_body cond s) (new_array n, 0)
  = Ok ((matching cond s
         ++ replicate (N.to_nat n - length (matching cond s)) MarketItem.zero)%list,
        N.of_nat (length (matching cond s))).
Proof.
  intros Hroom. change 0 with (N.of_nat 0).
  pose proof (scanned_indices cond s) as Hsc. cbv zeta in Hsc.
  rewrite fill_loop; rewrite Hsc; unfold new_array; rewrite ?length_replicate;
    [|cbn; lia].
  cbn. by rewrite drop_replicate.
Qed.

(** X12.  What the views do on any storage at all, reachable or not.
    [fetchMyNFTs] and [fetchItemsListed] count before they allocate, so they
    never fail and return exactly the matching records.  [fetchMarketItems]
    sizes its array as [_tokenIds - _itemsSold] instead: it panics with code
    0x11 when [_itemsSold] exceeds [_tokenIds], panics with code 0x32 when
    more records are held by the ledger than that size, and otherwise
    returns the matching records followed by all-zero records up to that
    size. *)
Theorem views_on_any_storage this caller s :
  fetchMyNFTs caller s = Ok (matching (owner_is caller) s) /\
  fetchItemsListed caller s = Ok (matching (seller_is caller) s) /\
  (_tokenIds s < _itemsSold s -> fetchMarketItems this s = Panic 17) /\
  (_itemsSold s <= _tokenIds s ->
   _tokenIds s - _itemsSold s < N.of_nat (length (matching (owner_is this) s)) ->
   fetchMarketItems this s = Panic 50) /\
  (_itemsSold s <= _tokenIds s ->
   N.of_nat (length (matching (owner_is this) s)) <= _tokenIds s - _itemsSold s ->
   fetchMarketItems this s =
   Ok (matching (owner_is this) s
       ++ replicate (N.to_nat (_tokenIds s - _itemsSold s)
                     - length (matching (owner_is this) s)) MarketItem.zero)%list).
Proof.
  split; [apply fetchMyNFTs_eq|]. split; [apply fetchItemsListed_eq|].
  rewrite fetchMarketItems_one_pass. unfold checked_sub. split; [|split].
  - intros Hlt. apply N.leb_gt in Hlt. by rewrite Hlt.
  - intros Hle Hover. apply N.leb_le in Hle. rewrite Hle. cbn.
    change 0 with (N.of_nat 0). rewrite fill_loop_overflow; [done|lia|].
    pose proof (scanned_indices (owner_is this) s) as Hsc. cbv zeta in Hsc.
    rewrite Hsc. unfold new_array. rewrite length_replicate. lia.
  - intros Hle Hroom. apply N.leb_le in Hle. rewrite Hle. cbn.
    rewrite fill_loop_padded by lia. done.
Qed.

(** A storage no run produces: two identifiers allocated, both held by the
    ledger, and a sold counter of 1, 3 or 0. *)
Definition two_in_escrow (sold_counter : N) : State :=
  mkState 2 sold_counter ether_0_001 admin
    (<[2 := MarketItem.mk 2 bob market 9 false]>
       (<[1 := MarketItem.mk 1 alice market 7 false]> ∅))
    (<[2 := market]> (<[1 := market]> ∅)) ∅ 0 [].

Lemma views_on_any_storage_witness :
  fetchMarketItems market (two_in_escrow 3) = Panic 17 /\
  fetchMarketItems market (two_in_escrow 1) = Panic 50 /\
  fetchMarketItems market (two_in_escrow 0)
  = Ok [MarketItem.mk 1 alice market 7 false; MarketItem.mk 2 bob market 9 false].
Proof.
  split; [|split].
  - apply (proj1 (proj2 (proj2 (views_on_any_storage market bob (two_in_escrow 3))))).
    by vm_compute.
  - apply (proj1 (proj2 (proj2 (proj2 (views_on_any_storage market bob (two_in_escrow 1)))))).
    + by vm_compute.
    + by vm_compute.
  - assert (_itemsSold (two_in_escrow 0) <= _tokenIds (two_in_escrow 0)) as H1
      by (by vm_compute).
    assert (N.of_nat (length (matching (owner_is market) (two_in_escrow 0)))
            <= _tokenIds (two_in_escrow 0) - _itemsSold (two_in_escrow 0)) as H2
      by (by vm_compute).
    rewrite (proj2 (proj2 (proj2 (proj2
              (views_on_any_storage market bob (two_in_escrow 0))))) H1 H2).
    by vm_compute.
Defined.

(** ** How the three views divide the records *)



(** ** Resell, then purchase *)


